(** * cogix-release: metadata extraction, listing and statistics

    A shallow embedding of the release worker [src/index.ts]:
    [parseReleaseMetadata], [formatFileSize] and the three JSON handlers
    [/api/releases], [/api/releases/:product] and [/api/stats].

    Conventions of the embedding
    - a JavaScript string is a [string]; the separators the worker splits
      on are single characters;
    - a value that may be [undefined] is an [option];
    - an integral JavaScript number (byte count, time value, counter) is a
      [Z];
    - a plain object used as a dictionary is a [gmap string _] holding its
      own properties, with the properties inherited from
      [Object.prototype] written out where the worker reads through them;
    - an exception caught by [try]/[catch] is the [None] of an option. *)

From Stdlib Require Import ZArith Ascii String List Lia Sorted Permutation.
From Stdlib Require Import Numbers.DecimalString.
From stdpp Require Import gmap strings list fin_maps.

Local Open Scope string_scope.
Local Open Scope Z_scope.

(** ** The JavaScript library functions the worker calls *)

Module JS.

(** [s.split(sep)] for a one-character separator: the pieces between the
    occurrences of [sep]; always at least one piece. *)
Fixpoint split (sep : ascii) (s : string) : list string :=
  match s with
  | EmptyString => [EmptyString]
  | String c r =>
      if Ascii.eqb c sep then EmptyString :: split sep r
      else match split sep r with
           | piece :: pieces => String c piece :: pieces
           | [] => [String c EmptyString]
           end
  end.

(** [parts.join(sep)]. *)
Fixpoint join (sep : string) (parts : list string) : string :=
  match parts with
  | [] => ""
  | [p] => p
  | p :: rest => p +:+ sep +:+ join sep rest
  end.

(** [s.includes(c)] for a single character. *)
Fixpoint includes (c : ascii) (s : string) : bool :=
  match s with
  | EmptyString => false
  | String d r => Ascii.eqb d c || includes c r
  end.

(** Truthiness of a value that is a string or [undefined]: only the
    non-empty string is truthy. *)
Definition truthy (v : option string) : bool :=
  match v with
  | Some s => negb (String.eqb s "")
  | None => false
  end.

(** [a || b] where [b] may still be [undefined]. *)
Definition or (a b : option string) : option string :=
  if truthy a then a else b.

(** [a || b] where [b] is a string. *)
Definition or_str (a : option string) (b : string) : string :=
  match a with
  | Some s => if String.eqb s "" then b else s
  | None => b
  end.

(** A [Date] holds an integral time value (milliseconds since the epoch)
    or is the Invalid Date, whose time value is [NaN]. *)
Inductive Date : Type :=
  | ValidDate (t : Z)
  | InvalidDate.

(** [d.getTime()]; [None] stands for [NaN]. *)
Definition getTime (d : Date) : option Z :=
  match d with
  | ValidDate t => Some t
  | InvalidDate => None
  end.

(** [d.toISOString()] throws a [RangeError] on the Invalid Date. The text
    it returns is determined by the time value, which stands for it
    here. *)
Definition toISOString (d : Date) : option Z := getTime d.

(** The names every object literal inherits from [Object.prototype]; each
    of them reads as a function or an object, hence as a truthy value. *)
Definition Object_prototype : list string :=
  [ "constructor"; "hasOwnProperty"; "isPrototypeOf"; "propertyIsEnumerable";
    "toLocaleString"; "toString"; "valueOf"; "__proto__";
    "__defineGetter__"; "__defineSetter__";
    "__lookupGetter__"; "__lookupSetter__" ].

Definition inherited (name : string) : bool :=
  bool_decide (name ∈ Object_prototype).

(** [array.sort(comparefn)]: the sort is stable, and [comparefn a b <= 0]
    keeps [a] in front of [b]. For a comparison function that orders the
    elements consistently the result does not depend on the algorithm;
    it is written here as an insertion sort. *)
Section sort.
Context {A : Type} (comparefn : A -> A -> Z).

Fixpoint sort_insert (a : A) (sorted : list A) : list A :=
  match sorted with
  | [] => [a]
  | b :: rest =>
      if comparefn a b <=? 0 then a :: b :: rest
      else b :: sort_insert a rest
  end.

Fixpoint sort (array : list A) : list A :=
  match array with
  | [] => []
  | a :: rest => sort_insert a (sort rest)
  end.
End sort.

(** [n / 100] printed by [Number.prototype.toString] for an integral
    [n >= 0]: the integer part, then at most two decimals with no
    trailing zero. *)
Definition digits (n : Z) : string :=
  NilZero.string_of_uint (N.to_uint (Z.to_N n)).

Definition hundredths_toString (n : Z) : string :=
  let whole := digits (n / 100) in
  let frac := n mod 100 in
  if frac =? 0 then whole
  else if frac mod 10 =? 0 then whole +:+ "." +:+ digits (frac / 10)
  else whole +:+ "." +:+ digits (frac / 10) +:+ digits (frac mod 10).

End JS.

(** ** Data model *)

Module R2Object.
(** What the bucket reports for one stored object. *)
Record t : Type := mk {
  key : string;
  size : Z;
  uploaded : JS.Date;
  customMetadata : option (gmap string string)
}.
End R2Object.

Module ReleaseMetadata.
Record t : Type := mk {
  product : string;
  version : string;
  platform : string;
  arch : string;
  uploadDate : Z;            (* the instant [toISOString] renders *)
  size : Z;
  filename : string;
  checksum : option string;
  description : option string
}.
End ReleaseMetadata.

Module ReleaseFile.
Record t : Type := mk {
  key : string;
  size : Z;
  uploaded : JS.Date;
  metadata : ReleaseMetadata.t
}.
End ReleaseFile.

(** ** [parseReleaseMetadata] *)

Definition parseReleaseMetadata (object : R2Object.t) : option ReleaseMetadata.t :=
  let customMetadata : gmap string string :=
    default ∅ (R2Object.customMetadata object) in
  let pathParts := JS.split "/" (R2Object.key object) in
  if (length pathParts <? 4)%nat then
    let filename := JS.or_str (last pathParts) (R2Object.key object) in
    uploadDate ← JS.toISOString (R2Object.uploaded object);
    Some {| ReleaseMetadata.product := JS.or_str (customMetadata !! "product") "unknown";
            ReleaseMetadata.version := JS.or_str (customMetadata !! "version") "unknown";
            ReleaseMetadata.platform := JS.or_str (customMetadata !! "platform") "unknown";
            ReleaseMetadata.arch := JS.or_str (customMetadata !! "arch") "unknown";
            ReleaseMetadata.uploadDate := uploadDate;
            ReleaseMetadata.size := R2Object.size object;
            ReleaseMetadata.filename := filename;
            ReleaseMetadata.checksum := customMetadata !! "checksum";
            ReleaseMetadata.description := customMetadata !! "description" |}
  else
    match pathParts with
    | product :: version :: platformArch :: filenameParts =>
        match JS.split "-" platformArch with
        | platform :: archs =>
            let arch := head archs in
            let filename := JS.join "/" filenameParts in
            uploadDate ← JS.toISOString (R2Object.uploaded object);
            Some {| ReleaseMetadata.product := JS.or_str (customMetadata !! "product") product;
                    ReleaseMetadata.version := JS.or_str (customMetadata !! "version") version;
                    ReleaseMetadata.platform := JS.or_str (customMetadata !! "platform") platform;
                    ReleaseMetadata.arch :=
                      JS.or_str (JS.or (customMetadata !! "arch") arch) "unknown";
                    ReleaseMetadata.uploadDate := uploadDate;
                    ReleaseMetadata.size := R2Object.size object;
                    ReleaseMetadata.filename := filename;
                    ReleaseMetadata.checksum := customMetadata !! "checksum";
                    ReleaseMetadata.description := customMetadata !! "description" |}
        | [] => None            (* not reached: [split] yields a piece *)
        end
    | _ => None                 (* not reached: four parts at least *)
    end.

(** The parser's contract as the catalogue uses it: a key, its tags, the
    stored size and a valid creation instant. *)
Definition parse (key : string) (tags : gmap string string) (size t : Z)
  : option ReleaseMetadata.t :=
  parseReleaseMetadata (R2Object.mk key size (JS.ValidDate t) (Some tags)).

(** ** [formatFileSize]

    The worker computes on IEEE doubles; the embedding computes the same
    expression exactly: [Math.floor(Math.log(bytes) / Math.log(1024))] is
    the integer logarithm to base 1024, and [Math.round(x * 100) / 100]
    rounds the exact quotient half up. Below [2^46] bytes the two agree:
    [bytes * 100] is then below [2^53], so every quotient and product of
    the source is an exact double, and the logarithms are far enough from
    the next integer, or exact powers. From there on the doubles only
    approximate the exact value. An index outside [sizes] reads
    [undefined], which string concatenation prints as such. *)

Definition sizes : list string := ["B"; "KB"; "MB"; "GB"; "TB"].

Definition formatFileSize (bytes : Z) : string :=
  if bytes =? 0 then "0 B"
  else if bytes <? 0 then "NaN undefined"      (* [Math.log] of a negative *)
  else
    let i := Z.log2 bytes / 10 in
    let hundredths := (2 * (bytes * 100) + 1024 ^ i) / (2 * 1024 ^ i) in
    JS.hundredths_toString hundredths +:+ " " +:+
      default "undefined" (sizes !! Z.to_nat i).

(** ** The bucket *)

Module R2Bucket.
(** The stored objects, in the order the bucket lists them. *)
Definition t : Type := Datatypes.list R2Object.t.

(** [bucket.list({ prefix })]: the objects whose key starts with
    [prefix]; all of them when no prefix is given. The batch is what one
    call of the store returns. *)
Definition list (prefix : option string) (bucket : t) : Datatypes.list R2Object.t :=
  match prefix with
  | None => bucket
  | Some p => List.filter (fun object => String.prefix p (R2Object.key object)) bucket
  end.
End R2Bucket.

(** ** [GET /api/releases] and [GET /api/releases/:product] *)

Definition release_of (object : R2Object.t) (metadata : ReleaseMetadata.t) : ReleaseFile.t :=
  {| ReleaseFile.key := R2Object.key object;
     ReleaseFile.size := R2Object.size object;
     ReleaseFile.uploaded := R2Object.uploaded object;
     ReleaseFile.metadata := metadata |}.

(** [(a, b) => b.uploaded.getTime() - a.uploaded.getTime()]. The operands
    are integral time values, so the sign of the difference is exact; a
    [NaN] result is read by the sort as [+0]. *)
Definition newest_first (a b : ReleaseFile.t) : Z :=
  match JS.getTime (ReleaseFile.uploaded b), JS.getTime (ReleaseFile.uploaded a) with
  | Some tb, Some ta => tb - ta
  | _, _ => 0
  end.

(** One turn of the loop of [/api/releases]. *)
Definition push_release (releases : list ReleaseFile.t) (object : R2Object.t)
  : list ReleaseFile.t :=
  match parseReleaseMetadata object with
  | Some metadata => releases ++ [release_of object metadata]
  | None => releases
  end.

(** One turn of the loop of [/api/releases/:product]. *)
Definition push_release_of (product : string)
    (releases : list ReleaseFile.t) (object : R2Object.t) : list ReleaseFile.t :=
  match parseReleaseMetadata object with
  | Some metadata =>
      if String.eqb (ReleaseMetadata.product metadata) product
      then releases ++ [release_of object metadata]
      else releases
  | None => releases
  end.

Module Listing.
Record t : Type := mk {
  product : option string;          (* only in the product-scoped answer *)
  count : nat;
  releases : list ReleaseFile.t
}.
End Listing.

Definition api_releases (bucket : R2Bucket.t) : Listing.t :=
  let listed := R2Bucket.list None bucket in
  let releases := fold_left push_release listed [] in
  let releases := JS.sort newest_first releases in
  {| Listing.product := None;
     Listing.count := length releases;
     Listing.releases := releases |}.

Definition api_releases_product (bucket : R2Bucket.t) (product : string) : Listing.t :=
  let listed := R2Bucket.list (Some (product +:+ "/")) bucket in
  let releases := fold_left (push_release_of product) listed [] in
  let releases := JS.sort newest_first releases in
  {| Listing.product := Some product;
     Listing.count := length releases;
     Listing.releases := releases |}.

(** ** [GET /api/stats] *)

Module ProductStats.
Record t : Type := mk { count : Z; size : Z }.
End ProductStats.

Module Stats.
(** [products] holds the own properties of the tally object. The
    per-platform tally of the worker is left out: nothing below reads
    it. *)
Record t : Type := mk {
  totalReleases : Z;
  totalSize : Z;
  products : gmap string ProductStats.t;
  latestUpload : option JS.Date
}.

Definition empty : t := mk 0 0 ∅ None.
End Stats.

(** [stats.products[name]] read as a condition: an own entry is an
    object, and a name inherited from [Object.prototype] reads as a
    function or an object. *)
Definition products_truthy (products : gmap string ProductStats.t) (name : string) : bool :=
  match products !! name with
  | Some _ => true
  | None => JS.inherited name
  end.

(** [object.uploaded > stats.latestUpload]: both sides become their time
    values; a comparison with [NaN] is false. *)
Definition Date_gt (a b : JS.Date) : bool :=
  match JS.getTime a, JS.getTime b with
  | Some ta, Some tb => tb <? ta
  | _, _ => false
  end.

(** One turn of the loop of [/api/stats]. *)
Definition stats_step (stats : Stats.t) (object : R2Object.t) : Stats.t :=
  match parseReleaseMetadata object with
  | None => stats
  | Some metadata =>
      let name := ReleaseMetadata.product metadata in
      (* if (!stats.products[name]) stats.products[name] = { count: 0, size: 0 } *)
      let products :=
        if products_truthy (Stats.products stats) name then Stats.products stats
        else <[ name := ProductStats.mk 0 0 ]> (Stats.products stats) in
      (* stats.products[name].count++; stats.products[name].size += object.size;
         without an own entry both writes land on the inherited object *)
      let products :=
        match products !! name with
        | Some entry =>
            <[ name := ProductStats.mk (ProductStats.count entry + 1)
                         (ProductStats.size entry + R2Object.size object) ]> products
        | None => products
        end in
      let latestUpload :=
        match Stats.latestUpload stats with
        | None => Some (R2Object.uploaded object)
        | Some latest =>
            if Date_gt (R2Object.uploaded object) latest
            then Some (R2Object.uploaded object) else Some latest
        end in
      {| Stats.totalReleases := Stats.totalReleases stats + 1;
         Stats.totalSize := Stats.totalSize stats + R2Object.size object;
         Stats.products := products;
         Stats.latestUpload := latestUpload |}
  end.

Module StatsResponse.
Record t : Type := mk { stats : Stats.t; totalSizeFormatted : string }.
End StatsResponse.

Definition api_stats (bucket : R2Bucket.t) : StatsResponse.t :=
  let listed := R2Bucket.list None bucket in
  let stats := fold_left stats_step listed Stats.empty in
  {| StatsResponse.stats := stats;
     StatsResponse.totalSizeFormatted := formatFileSize (Stats.totalSize stats) |}.

(** The sum of the per-product counts of a tally. *)
Definition product_count_sum (products : gmap string ProductStats.t) : Z :=
  map_fold (fun _ entry acc => ProductStats.count entry + acc) 0 products.

(** ** Vocabulary of the statements *)

(** The four fields a tag may override, and the tag that does it. *)
Inductive field : Type := Product | Version | Platform | Arch.

Definition field_name (f : field) : string :=
  match f with
  | Product => "product"
  | Version => "version"
  | Platform => "platform"
  | Arch => "arch"
  end.

Definition field_of (f : field) (metadata : ReleaseMetadata.t) : string :=
  match f with
  | Product => ReleaseMetadata.product metadata
  | Version => ReleaseMetadata.version metadata
  | Platform => ReleaseMetadata.platform metadata
  | Arch => ReleaseMetadata.arch metadata
  end.

(** The key convention: [product/version/platform-arch/filename]. *)
Definition release_key (product version platform arch filename : string) : string :=
  product +:+ "/" +:+ version +:+ "/" +:+ platform +:+ "-" +:+ arch +:+ "/" +:+ filename.

(** A tag map that overrides none of the four fields. *)
Definition no_override (tags : gmap string string) : Prop :=
  forall f, JS.truthy (tags !! field_name f) = false.

(** The entry the listing builds for an object, when it parses. *)
Definition parsed (object : R2Object.t) : option ReleaseFile.t :=
  release_of object <$> parseReleaseMetadata object.

(** The upload instant of a listed entry. *)
Definition uploaded_at (t : Z) (release : ReleaseFile.t) : Prop :=
  JS.getTime (ReleaseFile.uploaded release) = Some t.

Global Instance uploaded_at_dec t release : Decision (uploaded_at t release).
Proof. unfold uploaded_at. apply _. Defined.

(** A listed entry with a valid upload date. *)
Definition dated (release : ReleaseFile.t) : Prop :=
  exists t, uploaded_at t release.

(** The resolved product of a listed entry. *)
Definition of_product (product : string) (release : ReleaseFile.t) : Prop :=
  ReleaseMetadata.product (ReleaseFile.metadata release) = product.

Global Instance of_product_dec product release : Decision (of_product product release).
Proof. unfold of_product. apply _. Defined.

(** [a] may stand in front of [b] in a newest-first listing. *)
Definition not_older (a b : ReleaseFile.t) : Prop :=
  exists ta tb, uploaded_at ta a /\ uploaded_at tb b /\ tb <= ta.

(** ** The page: [renderStats]

    The script of the page works on the [releases] array of
    [/api/releases]. Sizes travel as JSON numbers and stay integral, and
    their sums are exact as long as they stay below [2^53]; an
    [uploadDate] is the ISO text of an instant, which [new Date] reads
    back. *)

Module PageStats.
Record t : Type := mk {
  releases : nat;
  products : nat;
  totalSize : string
}.
End PageStats.

(** [allReleases.reduce((sum, r) => sum + r.size, 0)]. *)
Definition reduce_size (allReleases : list ReleaseFile.t) : Z :=
  fold_left (fun sum r => sum + ReleaseFile.size r) allReleases 0.

Definition renderStats (allReleases : list ReleaseFile.t) : PageStats.t :=
  let totalSize := reduce_size allReleases in
  let products : gset string :=
    list_to_set ((fun r => ReleaseMetadata.product (ReleaseFile.metadata r)) <$> allReleases) in
  {| PageStats.releases := length allReleases;
     PageStats.products := size products;
     PageStats.totalSize := formatFileSize totalSize |}.

(** The update of [stats.latestUpload] in [/api/stats], seen on the
    entries that parse. *)
Definition latest_step (latest : option JS.Date) (release : ReleaseFile.t)
  : option JS.Date :=
  match latest with
  | None => Some (ReleaseFile.uploaded release)
  | Some d =>
      if Date_gt (ReleaseFile.uploaded release) d
      then Some (ReleaseFile.uploaded release) else Some d
  end.

(** An entry of the product-scoped listing: resolved product and key
    prefix. *)
Definition under_product (product : string) (release : ReleaseFile.t) : Prop :=
  of_product product release /\
  String.prefix (product +:+ "/") (ReleaseFile.key release) = true.

Global Instance under_product_dec product release :
  Decision (under_product product release).
Proof. unfold under_product. apply _. Defined.

(** ** [encodeURIComponent] and [decodeURIComponent]

    A string stands for its UTF-8 bytes. A JavaScript string with a lone
    surrogate has no well-formed UTF-8 form; [encodeURIComponent] throws
    a [URIError] on it, and [decodeURIComponent] throws one on an escape
    that is cut short or not hexadecimal and on escaped bytes that are
    not the UTF-8 form of a code point. [None] is the [URIError]. *)

Module URI.

Definition between (lo hi : N) (c : ascii) : bool :=
  ((lo <=? N_of_ascii c) && (N_of_ascii c <=? hi))%N.

(** The characters [encodeURIComponent] leaves as they are. *)
Definition unreserved (c : ascii) : bool :=
  between 65 90 c || between 97 122 c || between 48 57 c
  || bool_decide (c ∈ ["-"; "_"; "."; "!"; "~"; "*"; "'"; "("; ")"]%char).

Definition hex_digit (n : N) : ascii :=
  if (n <? 10)%N then ascii_of_N (48 + n) else ascii_of_N (55 + n).

Definition hex_value (c : ascii) : option N :=
  if between 48 57 c then Some (N_of_ascii c - 48)%N
  else if between 65 70 c then Some (N_of_ascii c - 55)%N
  else if between 97 102 c then Some (N_of_ascii c - 87)%N
  else None.

(** Where a decoder of UTF-8 stands between two bytes: at the start of a
    code point, or before the continuation bytes of one, the first of
    which may have a narrower range. *)
Inductive utf8_state : Type :=
  | Start
  | Tail1 | Tail2 | Tail3
  | AfterE0 | AfterED | AfterF0 | AfterF4.

Definition utf8_step (st : utf8_state) (c : ascii) : option utf8_state :=
  match st with
  | Start =>
      if between 0 127 c then Some Start
      else if between 194 223 c then Some Tail1
      else if between 224 224 c then Some AfterE0
      else if between 225 236 c then Some Tail2
      else if between 237 237 c then Some AfterED
      else if between 238 239 c then Some Tail2
      else if between 240 240 c then Some AfterF0
      else if between 241 243 c then Some Tail3
      else if between 244 244 c then Some AfterF4
      else None
  | Tail1 => if between 128 191 c then Some Start else None
  | Tail2 => if between 128 191 c then Some Tail1 else None
  | Tail3 => if between 128 191 c then Some Tail2 else None
  | AfterE0 => if between 160 191 c then Some Tail1 else None
  | AfterED => if between 128 159 c then Some Tail1 else None
  | AfterF0 => if between 144 191 c then Some Tail2 else None
  | AfterF4 => if between 128 143 c then Some Tail2 else None
  end.

Fixpoint utf8_from (st : utf8_state) (s : string) : bool :=
  match s with
  | EmptyString => match st with Start => true | _ => false end
  | String c r =>
      match utf8_step st c with
      | Some st' => utf8_from st' r
      | None => false
      end
  end.

(** Well-formed text: the UTF-8 form of a sequence of code points. *)
Definition well_formed (s : string) : bool := utf8_from Start s.

Definition escape (c : ascii) : string :=
  String "%" (String (hex_digit (N_of_ascii c / 16))
                (String (hex_digit (N_of_ascii c mod 16)) EmptyString)).

Fixpoint escape_all (s : string) : string :=
  match s with
  | EmptyString => EmptyString
  | String c r =>
      if unreserved c then String c (escape_all r)
      else escape c +:+ escape_all r
  end.

Definition encodeURIComponent (s : string) : option string :=
  if well_formed s then Some (escape_all s) else None.

(** The input of the decoder, cut into plain characters and escapes. *)
Inductive token : Type :=
  | Plain (c : ascii)
  | Escaped (c : ascii).

Fixpoint tokens (s : string) : option (list token) :=
  match s with
  | EmptyString => Some []
  | String c r =>
      if Ascii.eqb c "%" then
        match r with
        | String h (String l rest) =>
            match hex_value h, hex_value l with
            | Some hi, Some lo =>
                cons (Escaped (ascii_of_N (16 * hi + lo))) <$> tokens rest
            | _, _ => None
            end
        | _ => None
        end
      else cons (Plain c) <$> tokens r
  end.

(** A plain character stands for itself where a code point may start;
    the bytes of an escaped code point must all be escaped. *)
Fixpoint decode (st : utf8_state) (ts : list token) : option string :=
  match ts with
  | [] => match st with Start => Some EmptyString | _ => None end
  | Plain c :: rest =>
      match st with
      | Start => String c <$> decode Start rest
      | _ => None
      end
  | Escaped c :: rest =>
      match utf8_step st c with
      | Some st' => String c <$> decode st' rest
      | None => None
      end
  end.

Definition decodeURIComponent (s : string) : option string :=
  ts ← tokens s; decode Start ts.

End URI.

(** ** [GET /download/*] *)

(** [s.substring(n)]. *)
Fixpoint substring (n : nat) (s : string) : string :=
  match n, s with
  | O, _ => s
  | S n', String _ r => substring n' r
  | S _, EmptyString => EmptyString
  end.

(** [bucket.get(key)]: the stored object of that key, if any. *)
Definition R2Bucket_get (key : string) (bucket : R2Bucket.t) : option R2Object.t :=
  List.find (fun object => String.eqb (R2Object.key object) key) bucket.

(** What the handler does with a request: the 404 answer, the 500 answer
    of its [catch], or the download of an object under a file name. The
    headers and the body of the download are built from the object and
    the file name and are not modelled further. *)
Inductive Download : Type :=
  | NotFound (key : string)
  | Failed
  | Attachment (object : R2Object.t) (filename : string).

Definition download (path : string) (bucket : R2Bucket.t) : Download :=
  let key := substring (String.length "/download/") path in
  match URI.decodeURIComponent key with
  | None => Failed
  | Some decodedKey =>
      match R2Bucket_get decodedKey bucket with
      | None => NotFound decodedKey
      | Some object =>
          let filename := JS.or_str (last (JS.split "/" decodedKey)) "download" in
          Attachment object filename
      end
  end.


(** ** The page: grouping in [renderReleases]

    [grouped] is a plain object: a product named like a member of
    [Object.prototype] reads as that member, no array is created for it,
    and the call of its missing [push] is a [TypeError]. The sections are
    shown by ascending name; their order is not part of the model, their
    content is. *)

(** [(a, b) => new Date(b.metadata.uploadDate) - new Date(a.metadata.uploadDate)]. *)
Definition by_uploadDate (a b : ReleaseFile.t) : Z :=
  ReleaseMetadata.uploadDate (ReleaseFile.metadata b)
  - ReleaseMetadata.uploadDate (ReleaseFile.metadata a).

Definition grouped_truthy (grouped : gmap string (list ReleaseFile.t)) (name : string) : bool :=
  match grouped !! name with
  | Some _ => true
  | None => JS.inherited name
  end.

(** One turn of [filteredReleases.forEach]; [None] is the [TypeError]. *)
Definition group_release (grouped : gmap string (list ReleaseFile.t))
    (release : ReleaseFile.t) : option (gmap string (list ReleaseFile.t)) :=
  let product := ReleaseMetadata.product (ReleaseFile.metadata release) in
  (* if (!grouped[product]) grouped[product] = [] *)
  let grouped :=
    if grouped_truthy grouped product then grouped else <[ product := [] ]> grouped in
  (* grouped[product].push(release) *)
  match grouped !! product with
  | Some group => Some (<[ product := (group ++ [release])%list ]> grouped)
  | None => None
  end.

Fixpoint group_all (grouped : gmap string (list ReleaseFile.t))
    (releases : list ReleaseFile.t) : option (gmap string (list ReleaseFile.t)) :=
  match releases with
  | [] => Some grouped
  | release :: rest =>
      grouped' ← group_release grouped release; group_all grouped' rest
  end.

Inductive Rendering : Type :=
  | EmptyState
  | Sections (grouped : gmap string (list ReleaseFile.t))
  | TypeError.

Definition renderReleases (filteredReleases : list ReleaseFile.t) : Rendering :=
  if (length filteredReleases =? 0)%nat then EmptyState
  else
    match group_all ∅ filteredReleases with
    | None => TypeError
    | Some grouped => Sections (JS.sort by_uploadDate <$> grouped)
    end.

(** A release whose product is no member of [Object.prototype]. *)
Definition own_name (release : ReleaseFile.t) : Prop :=
  JS.inherited (ReleaseMetadata.product (ReleaseFile.metadata release)) = false.

(** ** [GET /api/stats]: the per-platform tally

    [stats.platforms[name] = (stats.platforms[name] || 0) + 1] on a plain
    object. Under a name inherited from [Object.prototype] the sum is a
    concatenation: the text of the inherited member followed by ["1"].
    The assignment then creates an own property, except under
    ["__proto__"], whose setter ignores a string. *)

Inductive PlatformTally : Type :=
  | Counted (n : Z)
  | MemberText (ones : nat).     (* the text of the member, then [ones] times "1" *)

(** The value the assignment stores under [name], from what is stored
    there; [None] when the assignment stores nothing. *)
Definition tally_next (name : string) (tally : option PlatformTally)
  : option PlatformTally :=
  match tally with
  | Some (Counted n) => Some (Counted (n + 1))
  | Some (MemberText ones) => Some (MemberText (S ones))
  | None =>
      if JS.inherited name then
        if String.eqb name "__proto__" then None else Some (MemberText 1)
      else Some (Counted 1)
  end.

(** One turn of the loop of [/api/stats], for the platforms. *)
Definition platforms_step (platforms : gmap string PlatformTally)
    (object : R2Object.t) : gmap string PlatformTally :=
  match parseReleaseMetadata object with
  | None => platforms
  | Some metadata =>
      let name := ReleaseMetadata.platform metadata in
      match tally_next name (platforms !! name) with
      | Some tally => <[ name := tally ]> platforms
      | None => platforms
      end
  end.

(** The [platforms] member of the answer of [/api/stats]. *)
Definition api_stats_platforms (bucket : R2Bucket.t) : gmap string PlatformTally :=
  let listed := R2Bucket.list None bucket in
  fold_left platforms_step listed ∅.

(** The resolved platform of a listed entry. *)
Definition of_platform (platform : string) (release : ReleaseFile.t) : Prop :=
  ReleaseMetadata.platform (ReleaseFile.metadata release) = platform.

Global Instance of_platform_dec platform release :
  Decision (of_platform platform release).
Proof. unfold of_platform. apply _. Defined.

(** A listed entry whose metadata carry the instant of its upload date. *)
Definition stamped (release : ReleaseFile.t) : Prop :=
  JS.getTime (ReleaseFile.uploaded release)
  = Some (ReleaseMetadata.uploadDate (ReleaseFile.metadata release)).

(** ** Strings: [split], [join], [includes], prefixes *)

Section strings.
Variable sep : ascii.

Lemma split_not_nil s : JS.split sep s <> [].
Proof.
  destruct s as [|c r]; simpl; [discriminate|].
  destruct (Ascii.eqb c sep); [discriminate|].
  destruct (JS.split sep r); discriminate.
Qed.

Lemma split_cons s : exists piece pieces, JS.split sep s = piece :: pieces.
Proof.
  pose proof (split_not_nil s) as H.
  destruct (JS.split sep s) as [|piece pieces]; [congruence|eauto].
Qed.

Lemma split_no_sep s : JS.includes sep s = false -> JS.split sep s = [s].
Proof.
  induction s as [|c r IH]; simpl; [reflexivity|].
  intros H. apply orb_false_iff in H as [Hc Hr].
  rewrite Hc, (IH Hr). reflexivity.
Qed.

Lemma split_app a b :
  JS.includes sep a = false ->
  JS.split sep (a +:+ String sep b) = a :: JS.split sep b.
Proof.
  induction a as [|c r IH]; simpl.
  - intros _. rewrite Ascii.eqb_refl. reflexivity.
  - intros H. apply orb_false_iff in H as [Hc Hr].
    rewrite Hc, (IH Hr). reflexivity.
Qed.

Lemma join_cons p q rest :
  JS.join (String sep "") (p :: q :: rest)
  = p +:+ String sep (JS.join (String sep "") (q :: rest)).
Proof. reflexivity. Qed.

Lemma join_split s : JS.join (String sep "") (JS.split sep s) = s.
Proof.
  induction s as [|c r IH]; simpl; [reflexivity|].
  destruct (Ascii.eqb_spec c sep) as [->|Hne].
  - destruct (split_cons r) as (q & qs & Hq).
    rewrite Hq in *. rewrite join_cons, IH. reflexivity.
  - destruct (split_cons r) as (q & qs & Hq).
    rewrite Hq in *. destruct qs as [|q' qs].
    + simpl in *. congruence.
    + rewrite join_cons in IH |- *. rewrite <- IH. reflexivity.
Qed.

Lemma includes_app a b :
  JS.includes sep (a +:+ b) = JS.includes sep a || JS.includes sep b.
Proof.
  induction a as [|c r IH]; simpl; [reflexivity|].
  rewrite IH. apply orb_assoc.
Qed.
End strings.

Lemma append_nil_r s : s +:+ "" = s.
Proof.
  induction s as [|c r IH]; [reflexivity|].
  change (String c (r +:+ "") = String c r). congruence.
Qed.

Lemma append_assoc a b c : (a +:+ b) +:+ c = a +:+ b +:+ c.
Proof.
  induction a as [|x r IH]; [reflexivity|].
  change (String x ((r +:+ b) +:+ c) = String x (r +:+ b +:+ c)). congruence.
Qed.

Lemma or_str_truthy a b : JS.truthy a = false -> JS.or_str a b = b.
Proof.
  destruct a as [s|]; simpl; [|reflexivity].
  destruct (String.eqb s ""); [reflexivity|discriminate].
Qed.

Lemma or_str_tag (a : option string) (b : string) :
  JS.or_str a b =
    match a with
    | Some s => if decide (s = "") then b else s
    | None => b
    end.
Proof.
  destruct a as [s|]; simpl; [|reflexivity].
  destruct (String.eqb_spec s ""); destruct (decide (s = "")); congruence.
Qed.

Lemma or_str_nonempty a b : b <> "" -> JS.or_str a b <> "".
Proof.
  rewrite or_str_tag. destruct a as [s|]; [|tauto].
  destruct (decide (s = "")); tauto.
Qed.

(** ** The two branches of the parser *)

Lemma parse_short key tags size t :
  (length (JS.split "/" key) < 4)%nat ->
  parse key tags size t = Some
    {| ReleaseMetadata.product := JS.or_str (tags !! "product") "unknown";
       ReleaseMetadata.version := JS.or_str (tags !! "version") "unknown";
       ReleaseMetadata.platform := JS.or_str (tags !! "platform") "unknown";
       ReleaseMetadata.arch := JS.or_str (tags !! "arch") "unknown";
       ReleaseMetadata.uploadDate := t;
       ReleaseMetadata.size := size;
       ReleaseMetadata.filename := JS.or_str (last (JS.split "/" key)) key;
       ReleaseMetadata.checksum := tags !! "checksum";
       ReleaseMetadata.description := tags !! "description" |}.
Proof.
  intros H. unfold parse, parseReleaseMetadata. cbn [R2Object.key].
  apply Nat.ltb_lt in H. rewrite H. reflexivity.
Qed.

Lemma parse_long key tags size t product version platformArch f fs platform archs :
  JS.split "/" key = product :: version :: platformArch :: f :: fs ->
  JS.split "-" platformArch = platform :: archs ->
  parse key tags size t = Some
    {| ReleaseMetadata.product := JS.or_str (tags !! "product") product;
       ReleaseMetadata.version := JS.or_str (tags !! "version") version;
       ReleaseMetadata.platform := JS.or_str (tags !! "platform") platform;
       ReleaseMetadata.arch :=
         JS.or_str (JS.or (tags !! "arch") (head archs)) "unknown";
       ReleaseMetadata.uploadDate := t;
       ReleaseMetadata.size := size;
       ReleaseMetadata.filename := JS.join "/" (f :: fs);
       ReleaseMetadata.checksum := tags !! "checksum";
       ReleaseMetadata.description := tags !! "description" |}.
Proof.
  intros Hkey Hpa. unfold parse, parseReleaseMetadata. cbn [R2Object.key].
  rewrite Hkey. cbn [length Nat.ltb Nat.leb]. rewrite Hpa. reflexivity.
Qed.

Lemma key_shape key :
  (length (JS.split "/" key) < 4)%nat \/
  exists product version platformArch f fs,
    JS.split "/" key = product :: version :: platformArch :: f :: fs.
Proof.
  destruct (JS.split "/" key) as [|a [|b [|c [|d l]]]]; simpl; try (left; lia).
  right. eauto 6.
Qed.

(** The parser returns a record whenever the creation date is valid. *)
Lemma parse_total key tags size t : is_Some (parse key tags size t).
Proof.
  destruct (key_shape key) as [H|(p & v & pa & f & fs & H)].
  - rewrite (parse_short _ _ _ _ H). eauto.
  - destruct (split_cons "-" pa) as (pl & archs & Hpa).
    rewrite (parse_long _ _ _ _ _ _ _ _ _ _ _ H Hpa). eauto.
Qed.

Lemma no_override_empty : no_override ∅.
Proof. intros f. rewrite lookup_empty. reflexivity. Qed.

Lemma or_falsy a b : JS.truthy a = false -> JS.or a b = b.
Proof. unfold JS.or. intros ->. reflexivity. Qed.

(** ** The structured key (at least four segments) *)

(** C2, as stated, fails: the third segment is split on every ['-'] and
    only the first two pieces are read, so the architecture of
    ["linux-x64-musl"] is ["x64"], not the remainder ["x64-musl"] that
    follows the first ['-']. *)
Lemma arch_stops_at_second_dash :
  no_override ∅ /\
  JS.split "/" "p/v/linux-x64-musl/f.bin" = ["p"; "v"; "linux-x64-musl"; "f.bin"] /\
  "linux-x64-musl" = "linux" +:+ "-" +:+ "x64-musl" /\
  JS.includes "-" "linux" = false /\
  ReleaseMetadata.arch <$> parse "p/v/linux-x64-musl/f.bin" ∅ 0 0 = Some "x64" /\
  ReleaseMetadata.arch <$> parse "p/v/linux-x64-musl/f.bin" ∅ 0 0 <> Some "x64-musl".
Proof.
  split; [apply no_override_empty|].
  repeat split; try reflexivity. vm_compute. discriminate.
Qed.

(** C2, amended: for a key of at least four segments and tags that
    override nothing, [product] and [version] are the first two segments
    and [filename] is the remaining segments joined with ['/']; [platform]
    is the text of the third segment before its first ['-']; [arch] is the
    text between the first and the second ['-'] (up to the end of the
    segment when there is one ['-'] only), and ["unknown"] when the segment
    has no ['-'] or that text is empty. *)
Theorem parse_structured_key key tags size t product version platformArch f fs :
  JS.split "/" key = product :: version :: platformArch :: f :: fs ->
  no_override tags ->
  exists metadata,
    parse key tags size t = Some metadata /\
    ReleaseMetadata.product metadata = product /\
    ReleaseMetadata.version metadata = version /\
    ReleaseMetadata.filename metadata = JS.join "/" (f :: fs) /\
    (JS.includes "-" platformArch = false ->
       ReleaseMetadata.platform metadata = platformArch /\
       ReleaseMetadata.arch metadata = "unknown") /\
    (forall platform arch rest,
       platformArch = platform +:+ "-" +:+ arch +:+ rest ->
       JS.includes "-" platform = false ->
       JS.includes "-" arch = false ->
       rest = "" \/ (exists more, rest = "-" +:+ more) ->
       ReleaseMetadata.platform metadata = platform /\
       ReleaseMetadata.arch metadata = if decide (arch = "") then "unknown" else arch).
Proof.
  intros Hkey Htags.
  destruct (split_cons "-" platformArch) as (pl & archs & Hpa).
  rewrite (parse_long _ tags size t _ _ _ _ _ _ _ Hkey Hpa).
  eexists. split; [reflexivity|]. cbn [ReleaseMetadata.product
    ReleaseMetadata.version ReleaseMetadata.platform ReleaseMetadata.arch
    ReleaseMetadata.filename].
  rewrite (or_str_truthy _ _ (Htags Product)), (or_str_truthy _ _ (Htags Version)),
    (or_str_truthy _ _ (Htags Platform)), (or_falsy _ _ (Htags Arch)).
  split; [reflexivity|]. split; [reflexivity|]. split; [reflexivity|]. split.
  - intros Hnone. rewrite (split_no_sep _ _ Hnone) in Hpa.
    injection Hpa as <- <-. split; reflexivity.
  - intros platform arch rest -> Hplatform Harch Hrest.
    change ("-" +:+ arch +:+ rest) with (String "-" (arch +:+ rest)) in Hpa.
    rewrite (split_app _ _ _ Hplatform) in Hpa. injection Hpa as <- <-.
    assert (head (JS.split "-" (arch +:+ rest)) = Some arch) as ->.
    { destruct Hrest as [->|[more ->]].
      - rewrite append_nil_r, (split_no_sep _ _ Harch). reflexivity.
      - change ("-" +:+ more) with (String "-" more).
        rewrite (split_app _ _ _ Harch). reflexivity. }
    split; [reflexivity|]. rewrite or_str_tag. reflexivity.
Qed.

Lemma parse_structured_key_witness :
  exists metadata,
    parse "cogix-sdk/0.9.0/linux-x64/lib/libcogix-sdk.so" ∅ 7 9 = Some metadata /\
    ReleaseMetadata.product metadata = "cogix-sdk" /\
    ReleaseMetadata.version metadata = "0.9.0" /\
    ReleaseMetadata.filename metadata = "lib/libcogix-sdk.so".
Proof.
  destruct (parse_structured_key "cogix-sdk/0.9.0/linux-x64/lib/libcogix-sdk.so" ∅ 7 9
              "cogix-sdk" "0.9.0" "linux-x64" "lib" ["libcogix-sdk.so"]
              eq_refl no_override_empty)
    as (metadata & Hp & Hprod & Hver & Hfile & _).
  exists metadata. repeat split; assumption.
Defined.

(** ** Non-empty fields *)

(** C3, as stated, fails: with four segments an empty first segment is
    copied into [product] as it is. *)
Lemma product_may_be_empty :
  ReleaseMetadata.product <$> parse "/1.0.0/linux-x64/setup.exe" ∅ 0 0 = Some "".
Proof. reflexivity. Qed.

(** C3, amended: whatever the key and the tags, [arch] is never empty;
    [product], [version] and [platform] are non-empty when the key has
    fewer than four segments, when the tag of that name is non-empty, or
    when the part of the key the field is read from is non-empty. *)
Theorem parse_nonempty_fields key tags size t :
  exists metadata,
    parse key tags size t = Some metadata /\
    ReleaseMetadata.arch metadata <> "" /\
    ((length (JS.split "/" key) < 4)%nat ->
       forall f, field_of f metadata <> "") /\
    (forall f, JS.truthy (tags !! field_name f) = true -> field_of f metadata <> "") /\
    (forall product version platformArch rest platform archs,
       JS.split "/" key = product :: version :: platformArch :: rest ->
       JS.split "-" platformArch = platform :: archs ->
       (product <> "" -> ReleaseMetadata.product metadata <> "") /\
       (version <> "" -> ReleaseMetadata.version metadata <> "") /\
       (platform <> "" -> ReleaseMetadata.platform metadata <> "")).
Proof.
  assert (Htag : forall (a : option string) b, JS.truthy a = true -> JS.or_str a b <> "").
  { intros [v|] b; simpl; [|discriminate].
    destruct (String.eqb_spec v ""); [discriminate|auto]. }
  destruct (key_shape key) as [H|(p & v & pa & f & fs & H)].
  - rewrite (parse_short _ tags size t H). eexists. split; [reflexivity|].
    split; [apply or_str_nonempty; discriminate|].
    split; [intros _ []; apply or_str_nonempty; discriminate|].
    split; [intros []; apply Htag|].
    intros ? ? ? ? ? ? Hk. rewrite Hk in H. simpl in H.
    repeat split; intros; apply or_str_nonempty; discriminate.
  - destruct (split_cons "-" pa) as (pl & archs & Hpa).
    rewrite (parse_long _ tags size t _ _ _ _ _ _ _ H Hpa).
    eexists. split; [reflexivity|].
    split; [apply or_str_nonempty; discriminate|].
    split; [rewrite H; simpl; lia|].
    split.
    + intros [] Hf; try (apply Htag; exact Hf).
      apply or_str_nonempty; discriminate.
    + intros ? ? ? ? ? ? Hk Hs. rewrite H in Hk. injection Hk as <- <- <- <-.
      rewrite Hpa in Hs. injection Hs as <- <-.
      repeat split; apply or_str_nonempty.
Qed.

Lemma parse_nonempty_fields_witness :
  exists metadata,
    parse "cogix-desktop/1.0.0/windows/setup.exe" {[ "version" := "1.0.1" ]} 3 4
      = Some metadata /\
    ReleaseMetadata.product metadata <> "" /\
    ReleaseMetadata.version metadata <> "" /\
    ReleaseMetadata.platform metadata <> "" /\
    ReleaseMetadata.arch metadata <> "".
Proof.
  destruct (parse_nonempty_fields "cogix-desktop/1.0.0/windows/setup.exe"
              {[ "version" := "1.0.1" ]} 3 4)
    as (metadata & Hp & Harch & _ & Htag & Hkey).
  destruct (Hkey "cogix-desktop" "1.0.0" "windows" ["setup.exe"] "windows" []
              eq_refl eq_refl) as (Hproduct & _ & Hplatform).
  exists metadata. split; [exact Hp|].
  split; [apply Hproduct; discriminate|].
  split; [apply (Htag Version); reflexivity|].
  split; [apply Hplatform; discriminate|exact Harch].
Defined.

(** ** Round trip of the key convention *)

(** C5, as stated, fails for the empty architecture, which contains
    neither ['/'] nor ['-']: the key ["p/v/linux-/f.bin"] parses to the
    architecture ["unknown"]. *)
Lemma empty_arch_does_not_round_trip :
  JS.includes "/" "" = false /\ JS.includes "-" "" = false /\
  release_key "p" "v" "linux" "" "f.bin" = "p/v/linux-/f.bin" /\
  ReleaseMetadata.arch <$> parse (release_key "p" "v" "linux" "" "f.bin") ∅ 0 0
    = Some "unknown" /\
  ReleaseMetadata.arch <$> parse (release_key "p" "v" "linux" "" "f.bin") ∅ 0 0
    <> Some "".
Proof. repeat split; try reflexivity. vm_compute. discriminate. Qed.

(** C5, amended: when [product], [version], [platform] and [arch] contain
    no ['/'], [platform] and [arch] contain no ['-'], and [arch] is not
    empty, parsing [product/version/platform-arch/filename] with no tags
    gives back the four fields and [filename], for any [filename]. *)
Theorem parse_release_key product version platform arch filename size t :
  JS.includes "/" product = false ->
  JS.includes "/" version = false ->
  JS.includes "/" platform = false ->
  JS.includes "/" arch = false ->
  JS.includes "-" platform = false ->
  JS.includes "-" arch = false ->
  arch <> "" ->
  parse (release_key product version platform arch filename) ∅ size t = Some
    {| ReleaseMetadata.product := product;
       ReleaseMetadata.version := version;
       ReleaseMetadata.platform := platform;
       ReleaseMetadata.arch := arch;
       ReleaseMetadata.uploadDate := t;
       ReleaseMetadata.size := size;
       ReleaseMetadata.filename := filename;
       ReleaseMetadata.checksum := None;
       ReleaseMetadata.description := None |}.
Proof.
  intros Hp Hv Hpl Har Hpl' Har' Hne.
  destruct (split_cons "/" filename) as (f & fs & Hf).
  assert (Hkey : JS.split "/" (release_key product version platform arch filename)
                 = product :: version :: (platform +:+ "-" +:+ arch) :: f :: fs).
  { unfold release_key.
    change ("/" +:+ version +:+ "/" +:+ platform +:+ "-" +:+ arch +:+ "/" +:+ filename)
      with (String "/" (version +:+ "/" +:+ platform +:+ "-" +:+ arch +:+ "/" +:+ filename)).
    rewrite (split_app _ _ _ Hp).
    change ("/" +:+ platform +:+ "-" +:+ arch +:+ "/" +:+ filename)
      with (String "/" (platform +:+ "-" +:+ arch +:+ "/" +:+ filename)).
    rewrite (split_app _ _ _ Hv).
    replace (platform +:+ "-" +:+ arch +:+ "/" +:+ filename)
      with ((platform +:+ "-" +:+ arch) +:+ String "/" filename)
      by (rewrite !append_assoc; reflexivity).
    rewrite split_app, Hf; [reflexivity|].
    rewrite !includes_app, Hpl, Har. reflexivity. }
  assert (Hpa : JS.split "-" (platform +:+ "-" +:+ arch) = [platform; arch]).
  { change ("-" +:+ arch) with (String "-" arch).
    rewrite (split_app _ _ _ Hpl'), (split_no_sep _ _ Har'). reflexivity. }
  rewrite (parse_long _ ∅ size t _ _ _ _ _ _ _ Hkey Hpa).
  rewrite !lookup_empty. cbn [JS.or_str JS.or JS.truthy head].
  rewrite <- Hf, join_split.
  destruct (String.eqb_spec arch ""); [contradiction|reflexivity].
Qed.

Lemma parse_release_key_witness :
  parse (release_key "cogix-desktop" "1.0.0" "windows" "x64" "cogix-desktop-setup.exe")
        ∅ 52428800 1737547200000 = Some
    {| ReleaseMetadata.product := "cogix-desktop";
       ReleaseMetadata.version := "1.0.0";
       ReleaseMetadata.platform := "windows";
       ReleaseMetadata.arch := "x64";
       ReleaseMetadata.uploadDate := 1737547200000;
       ReleaseMetadata.size := 52428800;
       ReleaseMetadata.filename := "cogix-desktop-setup.exe";
       ReleaseMetadata.checksum := None;
       ReleaseMetadata.description := None |}.
Proof.
  apply (parse_release_key "cogix-desktop" "1.0.0" "windows" "x64"
           "cogix-desktop-setup.exe"); try reflexivity.
  discriminate.
Defined.

(** ** Tags override the key, field by field *)

(** C6: each of [product], [version], [platform], [arch] is the tag of
    that name when the tag is present and non-empty, and otherwise the
    value the key alone gives (the parse with no tags); the file name
    never depends on the tags. In particular ["p/v/linux-x64/f.bin"]
    tagged [product: "q"] has product ["q"] and everything else from the
    key. *)
Theorem tag_override_precedence key tags size t :
  exists metadata from_key,
    parse key tags size t = Some metadata /\
    parse key ∅ size t = Some from_key /\
    (forall f,
       field_of f metadata =
         match tags !! field_name f with
         | Some v => if decide (v = "") then field_of f from_key else v
         | None => field_of f from_key
         end) /\
    ReleaseMetadata.filename metadata = ReleaseMetadata.filename from_key /\
    parse "p/v/linux-x64/f.bin" {[ "product" := "q" ]} size t = Some
      {| ReleaseMetadata.product := "q";
         ReleaseMetadata.version := "v";
         ReleaseMetadata.platform := "linux";
         ReleaseMetadata.arch := "x64";
         ReleaseMetadata.uploadDate := t;
         ReleaseMetadata.size := size;
         ReleaseMetadata.filename := "f.bin";
         ReleaseMetadata.checksum := None;
         ReleaseMetadata.description := None |}.
Proof.
  destruct (key_shape key) as [H|(p & v & pa & f & fs & H)].
  - rewrite !(parse_short _ _ size t H). do 2 eexists.
    split; [reflexivity|]. split; [reflexivity|].
    split; [|split; reflexivity].
    intros []; cbn [field_of field_name ReleaseMetadata.product
      ReleaseMetadata.version ReleaseMetadata.platform ReleaseMetadata.arch];
      rewrite lookup_empty, or_str_tag; reflexivity.
  - destruct (split_cons "-" pa) as (pl & archs & Hpa).
    rewrite !(parse_long _ _ size t _ _ _ _ _ _ _ H Hpa). do 2 eexists.
    split; [reflexivity|]. split; [reflexivity|].
    split; [|split; reflexivity].
    intros []; cbn [field_of field_name ReleaseMetadata.product
      ReleaseMetadata.version ReleaseMetadata.platform ReleaseMetadata.arch];
      rewrite lookup_empty; try (rewrite or_str_tag; reflexivity).
    unfold JS.or. cbn [JS.truthy].
    destruct (tags !! "arch") as [a|]; [|reflexivity].
    cbn [JS.truthy]. destruct (String.eqb_spec a ""); destruct (decide (a = ""));
      try congruence; cbn [negb]; [reflexivity|].
    rewrite or_str_tag. destruct (decide (a = "")); congruence.
Qed.

(** ** The short key (fewer than four segments) *)

(** C7, as stated, fails: the key ["dir/"] contains a ['/'] and its last
    segment is empty, yet the file name is the whole key. *)
Lemma trailing_slash_filename_is_key :
  (length (JS.split "/" "dir/") < 4)%nat /\
  JS.includes "/" "dir/" = true /\
  last (JS.split "/" "dir/") = Some "" /\
  ReleaseMetadata.filename <$> parse "dir/" ∅ 0 0 = Some "dir/" /\
  ReleaseMetadata.filename <$> parse "dir/" ∅ 0 0 <> Some "".
Proof. repeat split; try reflexivity. simpl; lia. vm_compute; discriminate. Qed.

(** C7, amended: for a key of fewer than four segments, [filename] is the
    last segment when that segment is not empty and the whole key
    otherwise (so the whole key when it has no ['/']); [product],
    [version], [platform] and [arch] are the tags of those names, and
    ["unknown"] for a tag that is missing or empty. *)
Theorem parse_short_key key tags size t :
  (length (JS.split "/" key) < 4)%nat ->
  exists metadata segment,
    parse key tags size t = Some metadata /\
    last (JS.split "/" key) = Some segment /\
    ReleaseMetadata.filename metadata = (if decide (segment = "") then key else segment) /\
    (JS.includes "/" key = false -> ReleaseMetadata.filename metadata = key) /\
    (forall f,
       field_of f metadata =
         match tags !! field_name f with
         | Some v => if decide (v = "") then "unknown" else v
         | None => "unknown"
         end).
Proof.
  intros H. rewrite (parse_short _ tags size t H).
  destruct (last (JS.split "/" key)) as [segment|] eqn:Hlast.
  2: { apply last_None in Hlast. destruct (split_not_nil _ _ Hlast). }
  exists
    {| ReleaseMetadata.product := JS.or_str (tags !! "product") "unknown";
       ReleaseMetadata.version := JS.or_str (tags !! "version") "unknown";
       ReleaseMetadata.platform := JS.or_str (tags !! "platform") "unknown";
       ReleaseMetadata.arch := JS.or_str (tags !! "arch") "unknown";
       ReleaseMetadata.uploadDate := t;
       ReleaseMetadata.size := size;
       ReleaseMetadata.filename := JS.or_str (Some segment) key;
       ReleaseMetadata.checksum := tags !! "checksum";
       ReleaseMetadata.description := tags !! "description" |}, segment.
  split; [reflexivity|]. split; [reflexivity|].
  cbn [ReleaseMetadata.filename]. rewrite or_str_tag.
  split; [reflexivity|]. split.
  - intros Hno. rewrite (split_no_sep _ _ Hno) in Hlast.
    injection Hlast as <-. destruct (decide (key = "")); reflexivity.
  - intros []; cbn [field_of field_name ReleaseMetadata.product
      ReleaseMetadata.version ReleaseMetadata.platform ReleaseMetadata.arch];
      apply or_str_tag.
Qed.

Lemma parse_short_key_witness :
  exists metadata,
    parse "justafile.exe" ∅ 0 0 = Some metadata /\
    ReleaseMetadata.filename metadata = "justafile.exe" /\
    forall f, field_of f metadata = "unknown".
Proof.
  destruct (parse_short_key "justafile.exe" ∅ 0 0) as (metadata & segment & Hp & _ & _ & Hfile & Hf).
  - simpl. lia.
  - exists metadata. split; [exact Hp|]. split; [apply Hfile; reflexivity|].
    intros f. rewrite Hf, lookup_empty. reflexivity.
Defined.

(** ** [formatFileSize] *)

Lemma pow_1024 i : 0 <= i -> 1024 ^ i = 2 ^ (10 * i).
Proof. intros Hi. rewrite Z.pow_mul_r by lia. reflexivity. Qed.

(** The index the formatter computes is the integer logarithm to base
    1024. *)
Lemma unit_index_bounds bytes :
  1 <= bytes ->
  let i := Z.log2 bytes / 10 in
  0 <= i /\ 1024 ^ i <= bytes < 1024 ^ (i + 1).
Proof.
  intros Hb i.
  pose proof (Z.log2_nonneg bytes) as Hl.
  destruct (Z.log2_spec bytes ltac:(lia)) as [Hlo Hhi].
  assert (Hi : 0 <= i) by (apply Z.div_pos; lia).
  assert (Hd : 10 * i <= Z.log2 bytes < 10 * i + 10).
  { pose proof (Z.mod_pos_bound (Z.log2 bytes) 10 ltac:(lia)).
    pose proof (Z.div_mod (Z.log2 bytes) 10 ltac:(lia)). subst i. lia. }
  split; [exact Hi|]. rewrite !pow_1024 by lia. split.
  - etransitivity; [|exact Hlo]. apply Z.pow_le_mono_r; lia.
  - eapply Z.lt_le_trans; [exact Hhi|]. apply Z.pow_le_mono_r; lia.
Qed.

(** C4, as stated, fails: the index is not clamped. Two pebibytes have
    index 5, one past the last unit, and print with the unit
    [undefined] instead of as 2048 TB. *)
Lemma petabytes_have_no_unit :
  Z.log2 2251799813685248 / 10 = 5 /\
  sizes !! Z.to_nat 5 = None /\
  formatFileSize 2251799813685248 = "2 undefined" /\
  formatFileSize 2251799813685248 <> "2048 TB".
Proof. repeat split; try reflexivity. vm_compute. discriminate. Qed.

(** C4, amended: zero bytes print as ["0 B"]; for a byte count from 1 up
    to, but not including, [2^46] (where the doubles of the worker are
    exact) the index [i = floor(log_1024 bytes)] lies in the unit list
    without any clamping, and the text is [bytes / 1024^i] rounded to
    hundredths (half up) followed by the [i]-th unit; 1536 bytes print as
    ["1.5 KB"] and 1073741824 bytes as ["1 GB"]. *)
Theorem formatFileSize_units :
  formatFileSize 0 = "0 B" /\
  formatFileSize 1536 = "1.5 KB" /\
  formatFileSize 1073741824 = "1 GB" /\
  forall bytes, 1 <= bytes < 2 ^ 46 ->
    exists i unit hundredths,
      0 <= i <= 4 /\
      1024 ^ i <= bytes < 1024 ^ (i + 1) /\
      sizes !! Z.to_nat i = Some unit /\
      2 * 1024 ^ i * hundredths <= 2 * (bytes * 100) + 1024 ^ i
        < 2 * 1024 ^ i * (hundredths + 1) /\
      formatFileSize bytes = JS.hundredths_toString hundredths +:+ " " +:+ unit.
Proof.
  repeat split; try reflexivity.
  intros bytes [Hlo Hhi].
  destruct (unit_index_bounds bytes Hlo) as (Hi & Hb).
  set (i := Z.log2 bytes / 10) in *.
  assert (Hi4 : i <= 4).
  { assert (Z.log2 bytes < 46) by (apply Z.log2_lt_pow2; [lia|exact Hhi]).
    subst i. apply Z.lt_succ_r. apply Z.div_lt_upper_bound; lia. }
  assert (Hpos : 0 < 1024 ^ i) by (apply Z.pow_pos_nonneg; lia).
  assert (Hunit : exists unit, sizes !! Z.to_nat i = Some unit).
  { assert (Hc : i = 0 \/ i = 1 \/ i = 2 \/ i = 3 \/ i = 4) by lia.
    destruct Hc as [->|[->|[->|[->| ->]]]]; eexists; reflexivity. }
  destruct Hunit as [unit Hunit].
  exists i, unit, ((2 * (bytes * 100) + 1024 ^ i) / (2 * 1024 ^ i)).
  split; [lia|]. split; [exact Hb|]. split; [exact Hunit|]. split.
  - split.
    + apply Z.mul_div_le. lia.
    + apply Z.mul_succ_div_gt. lia.
  - unfold formatFileSize.
    destruct (Z.eqb_spec bytes 0); [lia|].
    destruct (Z.ltb_spec bytes 0); [lia|].
    fold i. rewrite Hunit. reflexivity.
Qed.

Lemma formatFileSize_units_witness :
  exists i unit hundredths,
    1024 ^ i <= 123456789 < 1024 ^ (i + 1) /\
    sizes !! Z.to_nat i = Some unit /\
    formatFileSize 123456789 = JS.hundredths_toString hundredths +:+ " " +:+ unit.
Proof.
  destruct formatFileSize_units as (_ & _ & _ & H).
  destruct (H 123456789) as (i & unit & n & _ & Hb & Hu & _ & Hf).
  - split; [lia|reflexivity].
  - exists i, unit, n. auto.
Defined.

(** ** The sort *)

Section sort_facts.
Context {A : Type} (comparefn : A -> A -> Z).

Lemma sort_insert_Permutation a l : JS.sort_insert comparefn a l ≡ₚ a :: l.
Proof.
  induction l as [|b l IH]; simpl; [reflexivity|].
  destruct (comparefn a b <=? 0); [reflexivity|].
  rewrite IH. apply Permutation_swap.
Qed.

Lemma sort_Permutation l : JS.sort comparefn l ≡ₚ l.
Proof.
  induction l as [|a l IH]; simpl; [reflexivity|].
  rewrite sort_insert_Permutation, IH. reflexivity.
Qed.
End sort_facts.

Lemma newest_first_times a b ta tb :
  uploaded_at ta a -> uploaded_at tb b -> newest_first a b = tb - ta.
Proof. unfold uploaded_at, newest_first. intros -> ->. reflexivity. Qed.

Lemma not_older_trans a b c : not_older a b -> not_older b c -> not_older a c.
Proof.
  intros (ta & tb & Ha & Hb & Hab) (tb' & tc & Hb' & Hc & Hbc).
  unfold uploaded_at in *. assert (tb' = tb) as -> by congruence.
  exists ta, tc. unfold uploaded_at. split; [|split]; [assumption..|lia].
Qed.

Lemma sort_insert_sorted a l :
  dated a -> Forall dated l ->
  StronglySorted not_older l ->
  StronglySorted not_older (JS.sort_insert newest_first a l).
Proof.
  intros [ta Ha] Hl Hs. induction Hs as [|b l Hs IH Hb]; simpl.
  - repeat constructor.
  - apply Forall_cons in Hl as [[tb Htb] Hl].
    rewrite (newest_first_times a b ta tb Ha Htb).
    destruct (Z.leb_spec (tb - ta) 0) as [Hle|Hgt].
    + assert (Hab : not_older a b) by (exists ta, tb; repeat split; [assumption..|lia]).
      constructor; [constructor; assumption|].
      constructor; [exact Hab|].
      eapply Forall_impl; [exact Hb|]. intros c Hc. eapply not_older_trans; eassumption.
    + constructor; [apply IH; exact Hl|].
      rewrite sort_insert_Permutation. constructor; [|exact Hb].
      exists tb, ta. repeat split; [assumption..|lia].
Qed.

Lemma sort_sorted l :
  Forall dated l -> StronglySorted not_older (JS.sort newest_first l).
Proof.
  induction l as [|a l IH]; simpl; intros Hl; [constructor|].
  apply Forall_cons in Hl as [Ha Hl].
  apply sort_insert_sorted; [exact Ha| |apply IH; exact Hl].
  rewrite sort_Permutation. exact Hl.
Qed.

(** Stability: the entries of one instant come out in the order they
    went in. *)
Lemma sort_insert_filter t a l :
  filter (uploaded_at t) (JS.sort_insert newest_first a l)
  = filter (uploaded_at t) (a :: l).
Proof.
  induction l as [|b l IH]; simpl; [reflexivity|].
  destruct (Z.leb_spec (newest_first a b) 0) as [Hle|Hgt]; [reflexivity|].
  rewrite (filter_cons _ b), IH, !(filter_cons _ a), (filter_cons _ b).
  destruct (decide (uploaded_at t b)) as [Hb|Hb];
    destruct (decide (uploaded_at t a)) as [Ha|Ha]; try reflexivity.
  rewrite (newest_first_times a b t t Ha Hb) in Hgt. lia.
Qed.

Lemma sort_filter t l :
  filter (uploaded_at t) (JS.sort newest_first l) = filter (uploaded_at t) l.
Proof.
  induction l as [|a l IH]; simpl; [reflexivity|].
  rewrite sort_insert_filter, !filter_cons, IH. reflexivity.
Qed.

(** ** The listing loops *)

Lemma push_release_fold listed releases :
  fold_left push_release listed releases = (releases ++ omap parsed listed)%list.
Proof.
  revert releases. induction listed as [|object listed IH]; intros releases; simpl.
  - rewrite app_nil_r. reflexivity.
  - rewrite IH. unfold push_release, parsed.
    destruct (parseReleaseMetadata object); simpl; [|reflexivity].
    rewrite <- app_assoc. reflexivity.
Qed.

Lemma push_release_of_fold product listed releases :
  fold_left (push_release_of product) listed releases
  = (releases ++ filter (of_product product) (omap parsed listed))%list.
Proof.
  revert releases. induction listed as [|object listed IH]; intros releases; simpl.
  - rewrite app_nil_r. reflexivity.
  - rewrite IH. unfold push_release_of, parsed.
    destruct (parseReleaseMetadata object) as [metadata|]; simpl; [|reflexivity].
    rewrite filter_cons. unfold of_product at 2. simpl.
    destruct (String.eqb_spec (ReleaseMetadata.product metadata) product);
      destruct (decide (ReleaseMetadata.product metadata = product)); try congruence.
    + rewrite <- app_assoc. reflexivity.
    + reflexivity.
Qed.

Lemma parsed_Some object release :
  parsed object = Some release ->
  exists metadata t,
    parseReleaseMetadata object = Some metadata /\
    release = release_of object metadata /\
    R2Object.uploaded object = JS.ValidDate t.
Proof.
  unfold parsed. destruct (parseReleaseMetadata object) as [metadata|] eqn:Hp; [|discriminate].
  intros [= <-]. destruct (R2Object.uploaded object) as [t|] eqn:Hu; [eauto 6|].
  exfalso. unfold parseReleaseMetadata in Hp. rewrite Hu in Hp.
  repeat case_match; discriminate.
Qed.

Lemma parsed_dated bucket : Forall dated (omap parsed bucket).
Proof.
  apply Forall_forall. intros release (object & _ & Hp)%list_elem_of_omap.
  destruct (parsed_Some _ _ Hp) as (metadata & t & _ & -> & Hu).
  exists t. unfold uploaded_at. simpl. rewrite Hu. reflexivity.
Qed.

Lemma parsed_valid key size t tags :
  exists metadata,
    parsed (R2Object.mk key size (JS.ValidDate t) tags)
    = Some (release_of (R2Object.mk key size (JS.ValidDate t) tags) metadata).
Proof.
  unfold parsed.
  destruct (parse_total key (default ∅ tags) size t) as [metadata Hm].
  exists metadata. destruct tags as [tags|]; simpl in Hm; unfold parse in Hm.
  - rewrite Hm. reflexivity.
  - change (parseReleaseMetadata (R2Object.mk key size (JS.ValidDate t) None))
      with (parseReleaseMetadata (R2Object.mk key size (JS.ValidDate t) (Some ∅))).
    rewrite Hm. reflexivity.
Qed.

Lemma releases_all bucket :
  Listing.releases (api_releases bucket) = JS.sort newest_first (omap parsed bucket).
Proof. unfold api_releases. simpl. rewrite push_release_fold. reflexivity. Qed.

Lemma releases_product bucket product :
  Listing.releases (api_releases_product bucket product)
  = JS.sort newest_first
      (filter (of_product product)
         (omap parsed (R2Bucket.list (Some (product +:+ "/")) bucket))).
Proof. unfold api_releases_product. simpl. rewrite push_release_of_fold. reflexivity. Qed.

(** ** [GET /api/releases]: order of the listing *)

(** C8: the listing holds exactly the entries that parse, newest first,
    and entries uploaded at the same instant keep the order of the input;
    so an older entry and two entries of one later instant come out as
    the two later ones in input order, then the older one, wherever the
    older one stood in the input. *)
Theorem listing_newest_first_stable bucket :
  let releases := Listing.releases (api_releases bucket) in
  Listing.count (api_releases bucket) = length releases /\
  releases ≡ₚ omap parsed bucket /\
  StronglySorted not_older releases /\
  (forall t, filter (uploaded_at t) releases = filter (uploaded_at t) (omap parsed bucket)) /\
  (forall k1 k2 k3 s1 s2 s3 m1 m2 m3 T1 T2,
     T1 < T2 ->
     let older := R2Object.mk k1 s1 (JS.ValidDate T1) m1 in
     let first := R2Object.mk k2 s2 (JS.ValidDate T2) m2 in
     let second := R2Object.mk k3 s3 (JS.ValidDate T2) m3 in
     let expected := omap parsed [first; second; older] in
     length expected = 3%nat /\
     Listing.releases (api_releases [older; first; second]) = expected /\
     Listing.releases (api_releases [first; older; second]) = expected /\
     Listing.releases (api_releases [first; second; older]) = expected).
Proof.
  cbv zeta. split; [reflexivity|]. rewrite releases_all.
  split; [apply sort_Permutation|].
  split; [apply sort_sorted, parsed_dated|].
  split; [intros t; apply sort_filter|].
  intros k1 k2 k3 s1 s2 s3 m1 m2 m3 T1 T2 HT.
  rewrite !releases_all. cbn [omap list_omap].
  destruct (parsed_valid k1 s1 T1 m1) as [md1 ->].
  destruct (parsed_valid k2 s2 T2 m2) as [md2 ->].
  destruct (parsed_valid k3 s3 T2 m3) as [md3 ->].
  split; [reflexivity|].
  repeat split; cbn [JS.sort JS.sort_insert]; unfold newest_first; simpl;
    repeat (match goal with
            | |- context [?d <=? 0] => destruct (Z.leb_spec d 0); try lia; simpl
            end);
    reflexivity.
Qed.

Lemma listing_newest_first_stable_witness :
  ReleaseFile.key <$>
    Listing.releases (api_releases
      [ R2Object.mk "a/1/linux-x64/old" 1 (JS.ValidDate 100) None;
        R2Object.mk "a/2/linux-x64/new" 1 (JS.ValidDate 200) None;
        R2Object.mk "b/2/linux-x64/new" 1 (JS.ValidDate 200) None ])
  = ["a/2/linux-x64/new"; "b/2/linux-x64/new"; "a/1/linux-x64/old"].
Proof.
  destruct (listing_newest_first_stable []) as (_ & _ & _ & _ & H).
  destruct (H "a/1/linux-x64/old" "a/2/linux-x64/new" "b/2/linux-x64/new"
              1 1 1 None None None 100 200 ltac:(lia)) as (_ & -> & _).
  reflexivity.
Defined.

(** ** [GET /api/releases/:product] *)



(** Where the entries of a product-scoped listing come from. *)
Lemma releases_product_origin bucket product release :
  release ∈ Listing.releases (api_releases_product bucket product) ->
  exists object metadata,
    object ∈ bucket /\
    String.prefix (product +:+ "/") (R2Object.key object) = true /\
    parseReleaseMetadata object = Some metadata /\
    ReleaseMetadata.product metadata = product /\
    release = release_of object metadata.
Proof.
  rewrite releases_product, sort_Permutation.
  intros [Hp (object & Ho & Hparsed)%list_elem_of_omap]%list_elem_of_filter.
  destruct (parsed_Some _ _ Hparsed) as (metadata & t & Hm & -> & _).
  apply list_elem_of_In, filter_In in Ho as [Ho Hprefix].
  exists object, metadata. rewrite list_elem_of_In. auto.
Qed.

(** C10: every entry of the product-scoped listing has a key that begins
    with the product followed by ['/'], besides a resolved product equal
    to the one asked for; an entry under another prefix is never
    returned, whatever its resolved product. *)
Theorem product_listing_under_prefix bucket product release :
  release ∈ Listing.releases (api_releases_product bucket product) ->
  String.prefix (product +:+ "/") (ReleaseFile.key release) = true /\
  ReleaseMetadata.product (ReleaseFile.metadata release) = product.
Proof.
  intros (object & metadata & _ & Hprefix & _ & Hproduct & ->)%releases_product_origin.
  split; assumption.
Qed.

Lemma product_listing_under_prefix_witness :
  let bucket :=
    [ R2Object.mk "cogix-sdk/0.9.0/linux-x64/libcogix-sdk.so" 9 (JS.ValidDate 5) None;
      R2Object.mk "other/0.9.0/linux-x64/sdk.so" 9 (JS.ValidDate 6)
        (Some {[ "product" := "cogix-sdk" ]}) ] in
  let release :=
    {| ReleaseFile.key := "cogix-sdk/0.9.0/linux-x64/libcogix-sdk.so";
       ReleaseFile.size := 9;
       ReleaseFile.uploaded := JS.ValidDate 5;
       ReleaseFile.metadata :=
         {| ReleaseMetadata.product := "cogix-sdk";
            ReleaseMetadata.version := "0.9.0";
            ReleaseMetadata.platform := "linux";
            ReleaseMetadata.arch := "x64";
            ReleaseMetadata.uploadDate := 5;
            ReleaseMetadata.size := 9;
            ReleaseMetadata.filename := "libcogix-sdk.so";
            ReleaseMetadata.checksum := None;
            ReleaseMetadata.description := None |} |} in
  Listing.releases (api_releases_product bucket "cogix-sdk") = [release] /\
  String.prefix "cogix-sdk/" (ReleaseFile.key release) = true /\
  ReleaseMetadata.product (ReleaseFile.metadata release) = "cogix-sdk".
Proof.
  intros bucket release. split; [reflexivity|].
  apply (product_listing_under_prefix bucket "cogix-sdk" release).
  apply list_elem_of_here.
Defined.






(** ** [GET /api/stats] *)

Lemma stats_step_total stats object :
  Stats.totalReleases (stats_step stats object)
  = Stats.totalReleases stats + Z.of_nat (length (omap parsed [object])).
Proof.
  unfold stats_step, parsed. simpl.
  destruct (parseReleaseMetadata object); simpl; lia.
Qed.

Lemma stats_fold_total listed stats :
  Stats.totalReleases (fold_left stats_step listed stats)
  = Stats.totalReleases stats + Z.of_nat (length (omap parsed listed)).
Proof.
  revert stats. induction listed as [|object listed IH]; intros stats.
  - simpl. lia.
  - change (object :: listed) with ([object] ++ listed)%list.
    rewrite omap_app, length_app, fold_left_app. simpl fold_left.
    rewrite IH, stats_step_total. lia.
Qed.

(** Both views drop the same entries: the total of the statistics is the
    length of the listing. *)
Lemma stats_total_is_listing_length bucket :
  Stats.totalReleases (StatsResponse.stats (api_stats bucket))
  = Z.of_nat (length (Listing.releases (api_releases bucket))).
Proof.
  rewrite releases_all, (Permutation_length (sort_Permutation newest_first _)).
  unfold api_stats. cbn [StatsResponse.stats R2Bucket.list].
  rewrite stats_fold_total. reflexivity.
Qed.

Lemma count_sum_insert_None (products : gmap string ProductStats.t) name entry :
  products !! name = None ->
  product_count_sum (<[ name := entry ]> products)
  = ProductStats.count entry + product_count_sum products.
Proof.
  intros Hnone. unfold product_count_sum.
  rewrite map_fold_insert_L; [reflexivity| |exact Hnone].
  intros. lia.
Qed.

Lemma count_sum_insert_Some (products : gmap string ProductStats.t) name entry entry' :
  products !! name = Some entry ->
  product_count_sum (<[ name := entry' ]> products)
  = product_count_sum products - ProductStats.count entry + ProductStats.count entry'.
Proof.
  intros Hsome. rewrite <- insert_delete_eq.
  rewrite count_sum_insert_None by apply lookup_delete_eq.
  unfold product_count_sum at 2.
  rewrite (map_fold_delete_L _ _ name entry products); [|intros; lia|exact Hsome].
  fold (product_count_sum (delete name products)). lia.
Qed.

(** One parsed object whose product is no inherited name adds one to the
    per-product counts; under an inherited name it adds nothing. *)
Lemma stats_step_count_sum stats object metadata :
  parseReleaseMetadata object = Some metadata ->
  product_count_sum (Stats.products (stats_step stats object))
  = product_count_sum (Stats.products stats)
    + match Stats.products stats !! ReleaseMetadata.product metadata with
      | Some _ => 1
      | None => if JS.inherited (ReleaseMetadata.product metadata) then 0 else 1
      end.
Proof.
  intros Hp. unfold stats_step, products_truthy. rewrite Hp. simpl.
  destruct (Stats.products stats !! ReleaseMetadata.product metadata) as [entry|] eqn:He.
  - rewrite He. rewrite (count_sum_insert_Some _ _ entry) by exact He. simpl. lia.
  - destruct (JS.inherited (ReleaseMetadata.product metadata)).
    + rewrite He. lia.
    + rewrite lookup_insert_eq, insert_insert_eq.
      rewrite count_sum_insert_None by exact He. simpl. lia.
Qed.

(** With no product named like a member of [Object.prototype], the
    per-product counts add up to the total. *)
Lemma product_counts_add_up listed stats :
  (forall object metadata,
     object ∈ listed -> parseReleaseMetadata object = Some metadata ->
     JS.inherited (ReleaseMetadata.product metadata) = false) ->
  product_count_sum (Stats.products (fold_left stats_step listed stats))
  - Stats.totalReleases (fold_left stats_step listed stats)
  = product_count_sum (Stats.products stats) - Stats.totalReleases stats.
Proof.
  revert stats. induction listed as [|object listed IH]; intros stats Hnames.
  - reflexivity.
  - simpl. rewrite IH by (intros; eapply Hnames; [apply list_elem_of_further|]; eassumption).
    destruct (parseReleaseMetadata object) as [metadata|] eqn:Hp.
    + rewrite (stats_step_count_sum _ _ _ Hp).
      rewrite (Hnames object metadata (list_elem_of_here _ _) Hp).
      unfold stats_step at 1. rewrite Hp. simpl.
      destruct (Stats.products stats !! _); lia.
    + unfold stats_step. rewrite Hp. reflexivity.
Qed.

Lemma aggregate_consistent_own_names bucket :
  (forall object metadata,
     object ∈ bucket -> parseReleaseMetadata object = Some metadata ->
     JS.inherited (ReleaseMetadata.product metadata) = false) ->
  product_count_sum (Stats.products (StatsResponse.stats (api_stats bucket)))
  = Stats.totalReleases (StatsResponse.stats (api_stats bucket)).
Proof.
  intros Hnames. unfold api_stats. cbn [StatsResponse.stats R2Bucket.list].
  pose proof (product_counts_add_up bucket Stats.empty Hnames) as H.
  assert (H0 : product_count_sum (Stats.products Stats.empty) = 0)
    by apply map_fold_empty.
  rewrite H0 in H. simpl in H. lia.
Qed.

(** C9 at a failing input: one release stored under the product name
    ["constructor"]. The listing has one entry and the statistics count
    one release, but the tally object inherits a member of that name, so
    no per-product entry is created and the per-product counts sum to
    zero. *)
Theorem inherited_product_name_is_not_counted :
  let bucket :=
    [ R2Object.mk "constructor/1.0.0/linux-x64/app.bin" 1024 (JS.ValidDate 0) None ] in
  let stats := StatsResponse.stats (api_stats bucket) in
  ReleaseMetadata.product <$> parseReleaseMetadata
    (R2Object.mk "constructor/1.0.0/linux-x64/app.bin" 1024 (JS.ValidDate 0) None)
    = Some "constructor" /\
  length (Listing.releases (api_releases bucket)) = 1%nat /\
  Stats.totalReleases stats = 1 /\
  Stats.products stats = ∅ /\
  product_count_sum (Stats.products stats) = 0.
Proof. repeat split. Qed.


(** ** More on the parser *)

Lemma parseReleaseMetadata_valid object t :
  R2Object.uploaded object = JS.ValidDate t ->
  parseReleaseMetadata object
  = parse (R2Object.key object) (default ∅ (R2Object.customMetadata object))
      (R2Object.size object) t.
Proof.
  destruct object as [key size uploaded [tags|]]; simpl; intros ->; reflexivity.
Qed.

(** The parser answers [null] for an object exactly when the upload date
    of the object is the Invalid Date; neither the key nor the tags can
    make it fail. *)
Theorem parse_null_iff_invalid_date object :
  parseReleaseMetadata object = None <-> R2Object.uploaded object = JS.InvalidDate.
Proof.
  split.
  - intros Hnone. destruct (R2Object.uploaded object) as [t|] eqn:Hu; [|reflexivity].
    rewrite (parseReleaseMetadata_valid _ _ Hu) in Hnone.
    destruct (parse_total (R2Object.key object)
                (default ∅ (R2Object.customMetadata object))
                (R2Object.size object) t) as [metadata Hm].
    congruence.
  - intros Hu. destruct (parseReleaseMetadata object) as [metadata|] eqn:Hp; [|reflexivity].
    assert (Hparsed : parsed object = Some (release_of object metadata))
      by (unfold parsed; rewrite Hp; reflexivity).
    destruct (parsed_Some _ _ Hparsed) as (_ & t & _ & _ & Hvalid). congruence.
Qed.

Lemma join_last (sep : ascii) parts piece :
  last parts = Some piece ->
  exists front, JS.join (String sep "") parts = front +:+ piece.
Proof.
  induction parts as [|p [|q parts] IH]; intros Hlast.
  - discriminate.
  - injection Hlast as ->. exists "". reflexivity.
  - destruct (IH Hlast) as [front Hfront].
    exists (p +:+ String sep front). rewrite join_cons, Hfront.
    rewrite append_assoc. reflexivity.
Qed.

(** Whatever the key and the tags, the file name is a tail of the key. *)
Theorem filename_is_tail_of_key key tags size t :
  exists metadata front,
    parse key tags size t = Some metadata /\
    key = front +:+ ReleaseMetadata.filename metadata.
Proof.
  destruct (key_shape key) as [H|(p & v & pa & f & fs & H)].
  - rewrite (parse_short _ tags size t H).
    destruct (last (JS.split "/" key)) as [segment|] eqn:Hlast.
    2: { apply last_None in Hlast. destruct (split_not_nil _ _ Hlast). }
    destruct (join_last "/" _ _ Hlast) as [front Hfront].
    rewrite join_split in Hfront.
    eexists. exists (if decide (segment = "") then "" else front).
    split; [reflexivity|]. cbn [ReleaseMetadata.filename]. rewrite or_str_tag.
    destruct (decide (segment = "")); [reflexivity|exact Hfront].
  - destruct (split_cons "-" pa) as (pl & archs & Hpa).
    rewrite (parse_long _ tags size t _ _ _ _ _ _ _ H Hpa).
    eexists. exists (p +:+ "/" +:+ v +:+ "/" +:+ pa +:+ "/").
    split; [reflexivity|]. cbn [ReleaseMetadata.filename].
    rewrite <- (join_split "/" key) at 1. rewrite H, !join_cons.
    rewrite !append_assoc. reflexivity.
Qed.

(** Parsing, then printing: when the third segment of a key of at least
    four segments is [platform-arch] with a single ['-'] and a non-empty
    [arch], the key convention applied to the parsed fields gives the key
    back. *)
Theorem release_key_of_parse key size t product version platformArch f fs platform arch :
  JS.split "/" key = product :: version :: platformArch :: f :: fs ->
  JS.split "-" platformArch = [platform; arch] ->
  arch <> "" ->
  exists metadata,
    parse key ∅ size t = Some metadata /\
    release_key (ReleaseMetadata.product metadata) (ReleaseMetadata.version metadata)
      (ReleaseMetadata.platform metadata) (ReleaseMetadata.arch metadata)
      (ReleaseMetadata.filename metadata) = key.
Proof.
  intros Hkey Hpa Harch.
  rewrite (parse_long _ ∅ size t _ _ _ _ _ _ _ Hkey Hpa).
  eexists. split; [reflexivity|].
  cbn [ReleaseMetadata.product ReleaseMetadata.version ReleaseMetadata.platform
       ReleaseMetadata.arch ReleaseMetadata.filename].
  rewrite !lookup_empty. cbn [JS.or_str JS.or JS.truthy head].
  destruct (String.eqb_spec arch ""); [contradiction|].
  unfold release_key.
  rewrite <- (join_split "/" key) at 1. rewrite Hkey, !join_cons.
  rewrite <- (join_split "-" platformArch) at 1. rewrite Hpa, join_cons.
  cbn [JS.join]. rewrite !append_assoc. reflexivity.
Qed.

Lemma release_key_of_parse_witness :
  exists metadata,
    parse "cogix-eye-tracking/2.1.5/macos-arm64/dmg/installer.dmg" ∅ 1 2 = Some metadata /\
    release_key (ReleaseMetadata.product metadata) (ReleaseMetadata.version metadata)
      (ReleaseMetadata.platform metadata) (ReleaseMetadata.arch metadata)
      (ReleaseMetadata.filename metadata)
    = "cogix-eye-tracking/2.1.5/macos-arm64/dmg/installer.dmg".
Proof.
  apply (release_key_of_parse "cogix-eye-tracking/2.1.5/macos-arm64/dmg/installer.dmg"
           1 2 "cogix-eye-tracking" "2.1.5" "macos-arm64" "dmg" ["installer.dmg"]
           "macos" "arm64").
  - reflexivity.
  - reflexivity.
  - discriminate.
Defined.

(** ** More on the listings *)

Lemma parse_stored key tags size t metadata :
  parse key tags size t = Some metadata ->
  ReleaseMetadata.size metadata = size /\ ReleaseMetadata.uploadDate metadata = t.
Proof.
  destruct (key_shape key) as [H|(p & v & pa & f & fs & H)].
  - rewrite (parse_short _ tags size t H). intros [= <-]. split; reflexivity.
  - destruct (split_cons "-" pa) as (pl & archs & Hpa).
    rewrite (parse_long _ tags size t _ _ _ _ _ _ _ H Hpa).
    intros [= <-]. split; reflexivity.
Qed.

(** Every entry of the listing comes from an object of the bucket with a
    valid upload date: it has the key, the size and the date of that
    object, and its metadata repeat that size and that instant, whatever
    the tags say. *)
Theorem listed_entry_matches_object bucket release :
  release ∈ Listing.releases (api_releases bucket) ->
  exists object t,
    object ∈ bucket /\
    ReleaseFile.key release = R2Object.key object /\
    ReleaseFile.size release = R2Object.size object /\
    ReleaseFile.uploaded release = JS.ValidDate t /\
    R2Object.uploaded object = JS.ValidDate t /\
    ReleaseMetadata.size (ReleaseFile.metadata release) = ReleaseFile.size release /\
    ReleaseMetadata.uploadDate (ReleaseFile.metadata release) = t.
Proof.
  rewrite releases_all, sort_Permutation.
  intros (object & Hin & Hparsed)%list_elem_of_omap.
  destruct (parsed_Some _ _ Hparsed) as (metadata & t & Hm & -> & Hu).
  rewrite (parseReleaseMetadata_valid _ _ Hu) in Hm.
  destruct (parse_stored _ _ _ _ _ Hm) as [Hsize Hdate].
  exists object, t. simpl. auto 10.
Qed.

Lemma listed_entry_matches_object_witness :
  let bucket :=
    [ R2Object.mk "notes.txt" 12 (JS.ValidDate 77)
        (Some {[ "size" := "1"; "uploadDate" := "never" ]}) ] in
  exists release,
    Listing.releases (api_releases bucket) = [release] /\
    ReleaseFile.size release = 12 /\
    ReleaseMetadata.size (ReleaseFile.metadata release) = 12 /\
    ReleaseMetadata.uploadDate (ReleaseFile.metadata release) = 77.
Proof.
  intros bucket.
  destruct (parsed_valid "notes.txt" 12 77
              (Some {[ "size" := "1"; "uploadDate" := "never" ]})) as [metadata Hm].
  set (release := release_of (R2Object.mk "notes.txt" 12 (JS.ValidDate 77)
              (Some {[ "size" := "1"; "uploadDate" := "never" ]})) metadata).
  assert (Hlist : Listing.releases (api_releases bucket) = [release]).
  { rewrite releases_all. unfold bucket. cbn [omap list_omap]. rewrite Hm. reflexivity. }
  destruct (listed_entry_matches_object bucket release) as (object & t & _ & _ & Hsz & Hup & _ & Hms & Hmd).
  - rewrite Hlist. apply list_elem_of_here.
  - exists release. split; [exact Hlist|]. split; [reflexivity|].
    split; [rewrite Hms; reflexivity|].
    rewrite Hmd. simpl in Hup. congruence.
Defined.

Section sort_filter.
Context (P : ReleaseFile.t -> Prop) `{!forall release, Decision (P release)}.

Lemma sort_insert_front a l :
  (forall b, head l = Some b -> newest_first a b <= 0) ->
  JS.sort_insert newest_first a l = a :: l.
Proof.
  destruct l as [|b l]; simpl; [reflexivity|]. intros Hfront.
  destruct (Z.leb_spec (newest_first a b) 0) as [_|Hgt]; [reflexivity|].
  specialize (Hfront b eq_refl). lia.
Qed.

Lemma filter_sort_insert a l :
  dated a -> Forall dated l -> StronglySorted not_older l ->
  filter P (JS.sort_insert newest_first a l)
  = if decide (P a) then JS.sort_insert newest_first a (filter P l) else filter P l.
Proof.
  intros [ta Ha] Hl Hs. induction Hs as [|b l Hs IH Hb]; simpl.
  - rewrite filter_cons. destruct (decide (P a)); reflexivity.
  - apply Forall_cons in Hl as [[tb Htb] Hl]. specialize (IH Hl).
    rewrite (newest_first_times a b ta tb Ha Htb).
    destruct (Z.leb_spec (tb - ta) 0) as [Hle|Hgt].
    + rewrite (filter_cons _ a). destruct (decide (P a)) as [Hpa|Hpa]; [|reflexivity].
      symmetry. apply sort_insert_front. intros c Hc.
      assert (Hin : c ∈ b :: l).
      { eapply list_elem_of_filter. apply head_Some_elem_of. exact Hc. }
      apply elem_of_cons in Hin as [->|Hin].
      * rewrite (newest_first_times a b ta tb Ha Htb). exact Hle.
      * rewrite Forall_forall in Hb. destruct (Hb c Hin) as (tb' & tc & Hb' & Hc' & Hbc).
        unfold uploaded_at in *. assert (tb' = tb) as -> by congruence.
        rewrite (newest_first_times a c ta tc Ha Hc'). lia.
    + rewrite !(filter_cons _ b), IH.
      destruct (decide (P a)) as [Hpa|Hpa]; destruct (decide (P b)) as [Hpb|Hpb];
        try reflexivity.
      simpl. rewrite (newest_first_times a b ta tb Ha Htb).
      destruct (Z.leb_spec (tb - ta) 0); [lia|reflexivity].
Qed.

(** Filtering a newest-first listing is listing the filtered entries. *)
Lemma filter_sort l :
  Forall dated l ->
  filter P (JS.sort newest_first l) = JS.sort newest_first (filter P l).
Proof.
  induction l as [|a l IH]; intros Hl; [reflexivity|].
  apply Forall_cons in Hl as [Ha Hl]. simpl.
  rewrite filter_sort_insert;
    [|exact Ha|rewrite sort_Permutation; exact Hl|apply sort_sorted; exact Hl].
  rewrite filter_cons, (IH Hl). destruct (decide (P a)); reflexivity.
Qed.
End sort_filter.




(** ** More on the statistics *)

Lemma reduce_size_from (l : list ReleaseFile.t) start :
  fold_left (fun sum r => sum + ReleaseFile.size r) l start = start + reduce_size l.
Proof.
  unfold reduce_size. revert start.
  induction l as [|a l IH]; intros start; simpl; [lia|].
  rewrite (IH (start + _)), (IH (0 + _)). lia.
Qed.

Lemma reduce_size_cons a l : reduce_size (a :: l) = ReleaseFile.size a + reduce_size l.
Proof. unfold reduce_size at 1. simpl. rewrite reduce_size_from. lia. Qed.

Lemma reduce_size_Permutation l1 l2 : l1 ≡ₚ l2 -> reduce_size l1 = reduce_size l2.
Proof.
  induction 1 as [|a l1 l2 _ IH|a b l|l1 l2 l3 _ IH1 _ IH2];
    rewrite ?reduce_size_cons; lia.
Qed.

Lemma stats_step_parsed stats object release :
  parsed object = Some release ->
  Stats.totalSize (stats_step stats object) = Stats.totalSize stats + ReleaseFile.size release /\
  Stats.latestUpload (stats_step stats object) = latest_step (Stats.latestUpload stats) release.
Proof.
  intros Hp. destruct (parsed_Some _ _ Hp) as (metadata & t & Hm & -> & _).
  unfold stats_step. rewrite Hm. split; reflexivity.
Qed.

Lemma stats_step_dropped stats object :
  parsed object = None -> stats_step stats object = stats.
Proof.
  unfold parsed, stats_step. destruct (parseReleaseMetadata object); [discriminate|reflexivity].
Qed.

Lemma stats_fold_size listed stats :
  Stats.totalSize (fold_left stats_step listed stats)
  = Stats.totalSize stats + reduce_size (omap parsed listed).
Proof.
  revert stats. induction listed as [|object listed IH]; intros stats;
    cbn [fold_left omap list_omap].
  - unfold reduce_size. simpl. lia.
  - rewrite IH. destruct (parsed object) as [release|] eqn:Hp.
    + rewrite reduce_size_cons, (proj1 (stats_step_parsed stats _ _ Hp)). lia.
    + rewrite (stats_step_dropped _ _ Hp). reflexivity.
Qed.

(** The total size of the statistics is the sum of the sizes of the
    listed entries, so the page, which adds up the listing, prints the
    same total as [/api/stats]. *)
Theorem stats_size_is_listing_size bucket :
  Stats.totalSize (StatsResponse.stats (api_stats bucket))
    = reduce_size (Listing.releases (api_releases bucket)) /\
  StatsResponse.totalSizeFormatted (api_stats bucket)
    = PageStats.totalSize (renderStats (Listing.releases (api_releases bucket))).
Proof.
  assert (Hsize : Stats.totalSize (StatsResponse.stats (api_stats bucket))
                  = reduce_size (Listing.releases (api_releases bucket))).
  { rewrite releases_all, (reduce_size_Permutation _ _ (sort_Permutation newest_first _)).
    unfold api_stats. cbn [StatsResponse.stats R2Bucket.list].
    rewrite stats_fold_size. reflexivity. }
  split; [exact Hsize|].
  unfold renderStats. cbn [PageStats.totalSize]. rewrite <- Hsize. reflexivity.
Qed.

Lemma stats_fold_latest listed stats :
  Stats.latestUpload (fold_left stats_step listed stats)
  = fold_left latest_step (omap parsed listed) (Stats.latestUpload stats).
Proof.
  revert stats. induction listed as [|object listed IH]; intros stats;
    cbn [fold_left omap list_omap].
  - reflexivity.
  - rewrite IH. destruct (parsed object) as [release|] eqn:Hp.
    + cbn [fold_left]. rewrite (proj2 (stats_step_parsed stats _ _ Hp)). reflexivity.
    + rewrite (stats_step_dropped _ _ Hp). reflexivity.
Qed.

Lemma head_sort_insert a l :
  head (JS.sort_insert newest_first a l)
  = match head l with
    | None => Some a
    | Some b => if newest_first a b <=? 0 then Some a else Some b
    end.
Proof.
  destruct l as [|b l]; simpl; [reflexivity|].
  destruct (newest_first a b <=? 0); reflexivity.
Qed.

Lemma head_dated (l : list ReleaseFile.t) b :
  Forall dated l -> head l = Some b -> dated b.
Proof.
  intros Hl Hb. rewrite Forall_forall in Hl. apply Hl, head_Some_elem_of, Hb.
Qed.

Lemma Date_gt_times x y tx ty :
  JS.getTime x = Some tx -> JS.getTime y = Some ty -> Date_gt x y = (ty <? tx).
Proof. unfold Date_gt. intros -> ->. reflexivity. Qed.

Ltac compare_times :=
  repeat match goal with
         | |- context [?x <=? ?y] => destruct (Z.leb_spec x y)
         | |- context [?x <? ?y] => destruct (Z.ltb_spec x y)
         end;
  first [reflexivity | lia].

Lemma latest_fold_from l d td :
  Forall dated l ->
  JS.getTime d = Some td ->
  fold_left latest_step l (Some d)
  = match head (JS.sort newest_first l) with
    | None => Some d
    | Some b =>
        if Date_gt (ReleaseFile.uploaded b) d then Some (ReleaseFile.uploaded b)
        else Some d
    end.
Proof.
  revert d td. induction l as [|a l IH]; intros d td Hl Hd; [reflexivity|].
  apply Forall_cons in Hl as [[ta Ha] Hl]. unfold uploaded_at in Ha.
  cbn [fold_left JS.sort latest_step]. rewrite head_sort_insert.
  assert (Hsorted : Forall dated (JS.sort newest_first l))
    by (rewrite sort_Permutation; exact Hl).
  rewrite (Date_gt_times _ _ _ _ Ha Hd).
  destruct (Z.ltb_spec td ta) as [Hnew|Hold].
  - rewrite (IH _ ta Hl Ha).
    destruct (head (JS.sort newest_first l)) as [b|] eqn:Hb.
    + destruct (head_dated _ _ Hsorted Hb) as [tb Htb].
      rewrite (newest_first_times a b ta tb Ha Htb). unfold uploaded_at in Htb.
      rewrite (Date_gt_times _ _ _ _ Htb Ha).
      destruct (Z.leb_spec (tb - ta) 0); destruct (Z.ltb_spec ta tb); try lia.
      * rewrite (Date_gt_times _ _ _ _ Ha Hd). compare_times.
      * rewrite (Date_gt_times _ _ _ _ Htb Hd). compare_times.
    + rewrite (Date_gt_times _ _ _ _ Ha Hd). compare_times.
  - rewrite (IH _ td Hl Hd).
    destruct (head (JS.sort newest_first l)) as [b|] eqn:Hb.
    + destruct (head_dated _ _ Hsorted Hb) as [tb Htb].
      rewrite (newest_first_times a b ta tb Ha Htb). unfold uploaded_at in Htb.
      rewrite (Date_gt_times _ _ _ _ Htb Hd).
      destruct (Z.leb_spec (tb - ta) 0); destruct (Z.ltb_spec td tb); try lia.
      * rewrite (Date_gt_times _ _ _ _ Ha Hd). compare_times.
      * rewrite (Date_gt_times _ _ _ _ Htb Hd). compare_times.
      * rewrite (Date_gt_times _ _ _ _ Htb Hd). compare_times.
    + rewrite (Date_gt_times _ _ _ _ Ha Hd). compare_times.
Qed.

(** The latest upload of the statistics is the upload date of the first
    entry of the listing, and [null] exactly when the listing is empty. *)
Theorem latest_upload_is_first_listed bucket :
  Stats.latestUpload (StatsResponse.stats (api_stats bucket))
  = ReleaseFile.uploaded <$> head (Listing.releases (api_releases bucket)).
Proof.
  rewrite releases_all. unfold api_stats. cbn [StatsResponse.stats R2Bucket.list].
  rewrite stats_fold_latest. cbn [Stats.latestUpload Stats.empty].
  pose proof (parsed_dated bucket) as Hl.
  destruct (omap parsed bucket) as [|a l]; [reflexivity|].
  apply Forall_cons in Hl as [[ta Ha] Hl].
  cbn [fold_left latest_step JS.sort]. rewrite head_sort_insert.
  rewrite (latest_fold_from l _ ta Hl Ha).
  assert (Hsorted : Forall dated (JS.sort newest_first l))
    by (rewrite sort_Permutation; exact Hl).
  destruct (head (JS.sort newest_first l)) as [b|] eqn:Hb; [|reflexivity].
  destruct (head_dated _ _ Hsorted Hb) as [tb Htb].
  rewrite (newest_first_times a b ta tb Ha Htb).
  rewrite (Date_gt_times _ _ _ _ Htb Ha). compare_times.
Qed.

Lemma stats_step_products stats object release name :
  parsed object = Some release ->
  Stats.products (stats_step stats object) !! name
  = if decide (of_product name release)
    then match Stats.products stats !! name with
         | Some entry =>
             Some (ProductStats.mk (ProductStats.count entry + 1)
                     (ProductStats.size entry + ReleaseFile.size release))
         | None =>
             if JS.inherited name then None
             else Some (ProductStats.mk 1 (ReleaseFile.size release))
         end
    else Stats.products stats !! name.
Proof.
  intros Hp. destruct (parsed_Some _ _ Hp) as (metadata & t & Hm & -> & _).
  unfold stats_step, products_truthy, of_product. rewrite Hm.
  cbn [Stats.products release_of ReleaseFile.metadata ReleaseFile.size].
  set (product := ReleaseMetadata.product metadata).
  destruct (decide (product = name)) as [<-|Hne].
  - destruct (Stats.products stats !! product) as [entry|] eqn:He.
    + rewrite He. apply lookup_insert_eq.
    + destruct (JS.inherited product).
      * rewrite He. exact He.
      * rewrite lookup_insert_eq, insert_insert_eq. apply lookup_insert_eq.
  - destruct (Stats.products stats !! product) as [entry|] eqn:He.
    + rewrite He. apply lookup_insert_ne. exact Hne.
    + destruct (JS.inherited product).
      * rewrite He. reflexivity.
      * rewrite lookup_insert_eq, insert_insert_eq. apply lookup_insert_ne. exact Hne.
Qed.

Lemma stats_fold_products listed stats name :
  let entries := filter (of_product name) (omap parsed listed) in
  Stats.products (fold_left stats_step listed stats) !! name
  = match Stats.products stats !! name with
    | Some entry =>
        Some (ProductStats.mk (ProductStats.count entry + Z.of_nat (length entries))
                (ProductStats.size entry + reduce_size entries))
    | None =>
        if JS.inherited name then None
        else match entries with
             | [] => None
             | _ => Some (ProductStats.mk (Z.of_nat (length entries)) (reduce_size entries))
             end
    end.
Proof.
  cbv zeta. revert stats.
  induction listed as [|object listed IH]; intros stats; cbn [fold_left omap list_omap].
  - rewrite filter_nil. destruct (Stats.products stats !! name) as [[count size]|].
    + simpl. unfold reduce_size. simpl. do 2 f_equal; lia.
    + destruct (JS.inherited name); reflexivity.
  - rewrite IH. destruct (parsed object) as [release|] eqn:Hp.
    2: { rewrite (stats_step_dropped _ _ Hp). reflexivity. }
    rewrite (stats_step_products _ _ _ name Hp), filter_cons.
    destruct (decide (of_product name release)) as [Hof|Hof]; [|reflexivity].
    rewrite reduce_size_cons. cbn [length].
    destruct (Stats.products stats !! name) as [[count size]|].
    + cbn [ProductStats.count ProductStats.size]. do 2 f_equal; lia.
    + destruct (JS.inherited name); [reflexivity|].
      cbn [ProductStats.count ProductStats.size]. do 2 f_equal; lia.
Qed.

(** The per-product tally of the statistics: a product named like a
    member of [Object.prototype] never gets an entry; any other product
    has an entry exactly when the listing has entries of that product,
    and the entry holds their number and the sum of their sizes. *)
Theorem product_tally bucket name :
  let entries := filter (of_product name) (Listing.releases (api_releases bucket)) in
  Stats.products (StatsResponse.stats (api_stats bucket)) !! name
  = if JS.inherited name then None
    else match entries with
         | [] => None
         | _ => Some (ProductStats.mk (Z.of_nat (length entries)) (reduce_size entries))
         end.
Proof.
  cbv zeta. rewrite releases_all, (filter_sort _ _ (parsed_dated bucket)).
  unfold api_stats. cbn [StatsResponse.stats R2Bucket.list].
  rewrite stats_fold_products. cbn [Stats.products Stats.empty]. rewrite lookup_empty.
  destruct (JS.inherited name); [reflexivity|].
  pose proof (sort_Permutation newest_first
                (filter (of_product name) (omap parsed bucket))) as Hperm.
  rewrite (Permutation_length Hperm), (reduce_size_Permutation _ _ Hperm).
  destruct (filter (of_product name) (omap parsed bucket)) as [|a l] eqn:Hf.
  - apply Permutation_nil_r in Hperm. rewrite Hperm. reflexivity.
  - destruct (JS.sort newest_first (a :: l)) as [|b l'] eqn:Hs; [|reflexivity].
    symmetry in Hperm. apply Permutation_nil_r in Hperm. discriminate.
Qed.

(** ** More on [formatFileSize] *)

(** Below one kibibyte the byte count is printed as it is, with the unit
    [B]. *)
Theorem formatFileSize_bytes bytes :
  1 <= bytes < 1024 ->
  formatFileSize bytes = JS.digits bytes +:+ " B".
Proof.
  intros [Hlo Hhi]. unfold formatFileSize.
  destruct (Z.eqb_spec bytes 0); [lia|].
  destruct (Z.ltb_spec bytes 0); [lia|].
  assert (Hlog : Z.log2 bytes < 10) by (apply Z.log2_lt_pow2; lia).
  pose proof (Z.log2_nonneg bytes).
  rewrite (Z.div_small (Z.log2 bytes) 10) by lia.
  change (1024 ^ 0) with 1. change (Z.to_nat 0) with 0%nat.
  replace ((2 * (bytes * 100) + 1) / (2 * 1)) with (bytes * 100)
    by (apply Z.div_unique with (r := 1); lia).
  unfold JS.hundredths_toString.
  rewrite Z.div_mul, Z.mod_mul by lia. reflexivity.
Qed.

Lemma formatFileSize_bytes_witness : formatFileSize 1023 = "1023 B".
Proof. apply (formatFileSize_bytes 1023). lia. Defined.

(** For a byte count from 1 up to, but not including, [2^46], the number
    printed lies between 1 and 1024, both included, and is followed by a
    unit of the list. The upper end is reached just below a power of
    1024: 1048575 bytes print as ["1024 KB"]. *)
Theorem formatFileSize_range :
  formatFileSize 1048575 = "1024 KB" /\
  forall bytes, 1 <= bytes < 2 ^ 46 ->
    exists hundredths unit,
      100 <= hundredths <= 102400 /\
      unit ∈ sizes /\
      formatFileSize bytes = JS.hundredths_toString hundredths +:+ " " +:+ unit.
Proof.
  split; [reflexivity|].
  intros bytes [Hlo Hhi].
  destruct (unit_index_bounds bytes Hlo) as (Hi & Hb).
  set (i := Z.log2 bytes / 10) in *.
  assert (Hi4 : i <= 4).
  { assert (Z.log2 bytes < 46) by (apply Z.log2_lt_pow2; [lia|exact Hhi]).
    subst i. apply Z.lt_succ_r. apply Z.div_lt_upper_bound; lia. }
  assert (Hpos : 0 < 1024 ^ i) by (apply Z.pow_pos_nonneg; lia).
  replace (i + 1) with (Z.succ i) in Hb by lia.
  rewrite Z.pow_succ_r in Hb by exact Hi.
  assert (Hunit : exists unit, sizes !! Z.to_nat i = Some unit).
  { assert (Hc : i = 0 \/ i = 1 \/ i = 2 \/ i = 3 \/ i = 4) by lia.
    destruct Hc as [->|[->|[->|[->| ->]]]]; eexists; reflexivity. }
  destruct Hunit as [unit Hunit].
  exists ((2 * (bytes * 100) + 1024 ^ i) / (2 * 1024 ^ i)), unit.
  split; [|split].
  - split.
    + apply Z.div_le_lower_bound; lia.
    + apply Z.lt_succ_r. apply Z.div_lt_upper_bound; lia.
  - eapply list_elem_of_lookup_2. exact Hunit.
  - unfold formatFileSize.
    destruct (Z.eqb_spec bytes 0); [lia|].
    destruct (Z.ltb_spec bytes 0); [lia|].
    fold i. rewrite Hunit. reflexivity.
Qed.

Lemma formatFileSize_range_witness :
  exists hundredths unit,
    100 <= hundredths <= 102400 /\
    formatFileSize 5368709120 = JS.hundredths_toString hundredths +:+ " " +:+ unit.
Proof.
  destruct formatFileSize_range as [_ H].
  destruct (H 5368709120) as (hundredths & unit & Hrange & _ & Htext).
  - split; [lia|reflexivity].
  - exists hundredths, unit. split; assumption.
Defined.

(** From [1024^5] bytes on the index is past the unit list and the text
    ends with ["undefined"]. *)
Theorem formatFileSize_past_units bytes :
  1024 ^ 5 <= bytes ->
  exists hundredths,
    formatFileSize bytes = JS.hundredths_toString hundredths +:+ " undefined".
Proof.
  intros Hb. unfold formatFileSize.
  assert (0 < 1024 ^ 5) by reflexivity.
  destruct (Z.eqb_spec bytes 0); [lia|].
  destruct (Z.ltb_spec bytes 0); [lia|].
  assert (Hlog : 50 <= Z.log2 bytes) by (apply Z.log2_le_pow2; [lia|exact Hb]).
  assert (Hi : 5 <= Z.log2 bytes / 10) by (apply Z.div_le_lower_bound; lia).
  rewrite (lookup_ge_None_2 sizes) by (simpl; lia).
  eexists. reflexivity.
Qed.

Lemma formatFileSize_past_units_witness :
  exists hundredths,
    formatFileSize 1125899906842624 = JS.hundredths_toString hundredths +:+ " undefined".
Proof. apply (formatFileSize_past_units 1125899906842624). reflexivity. Defined.


(** ** Escaping and unescaping a key *)

Ltac each_byte c := destruct c as [[] [] [] [] [] [] [] []].

Lemma unreserved_plain c :
  URI.unreserved c = true ->
  Ascii.eqb c "%" = false /\ Ascii.eqb c "/" = false /\
  forall st, URI.utf8_step st c = match st with URI.Start => Some URI.Start | _ => None end.
Proof.
  each_byte c; intros Hc; try discriminate Hc;
    (split; [reflexivity|split; [reflexivity|intros []; reflexivity]]).
Qed.

Lemma tokens_escape c rest :
  URI.tokens (URI.escape c +:+ rest) = cons (URI.Escaped c) <$> URI.tokens rest.
Proof. each_byte c; reflexivity. Qed.

Lemma includes_escape c rest :
  JS.includes "/" (URI.escape c +:+ rest) = JS.includes "/" rest.
Proof. each_byte c; reflexivity. Qed.

Lemma decode_escape_all st s :
  URI.tokens (URI.escape_all s) ≫= URI.decode st
  = if URI.utf8_from st s then Some s else None.
Proof.
  revert st. induction s as [|c r IH]; intros st.
  - destruct st; reflexivity.
  - cbn [URI.escape_all URI.utf8_from].
    destruct (URI.unreserved c) eqn:Hc.
    + destruct (unreserved_plain c Hc) as (Hpercent & _ & Hstep).
      cbn [URI.tokens]. rewrite Hpercent, Hstep.
      specialize (IH URI.Start).
      destruct (URI.tokens (URI.escape_all r)) as [ts|]; simpl in *.
      * destruct st; try reflexivity. rewrite IH.
        destruct (URI.utf8_from URI.Start r); reflexivity.
      * destruct st; try reflexivity.
        destruct (URI.utf8_from URI.Start r); [discriminate|reflexivity].
    + rewrite tokens_escape.
      destruct (URI.utf8_step st c) as [st'|] eqn:Hstep.
      * specialize (IH st').
        destruct (URI.tokens (URI.escape_all r)) as [ts|]; simpl in *.
        -- rewrite Hstep, IH. destruct (URI.utf8_from st' r); reflexivity.
        -- destruct (URI.utf8_from st' r); [discriminate|reflexivity].
      * destruct (URI.tokens (URI.escape_all r)) as [ts|]; simpl; [|reflexivity].
        rewrite Hstep. reflexivity.
Qed.

Lemma escape_all_no_slash s : JS.includes "/" (URI.escape_all s) = false.
Proof.
  induction s as [|c r IH]; [reflexivity|]. cbn [URI.escape_all].
  destruct (URI.unreserved c) eqn:Hc.
  - destruct (unreserved_plain c Hc) as (_ & Hslash & _).
    cbn [JS.includes]. rewrite Hslash. exact IH.
  - rewrite includes_escape. exact IH.
Qed.


(** Escaping a key and unescaping the result gives the key back: for
    well-formed text [encodeURIComponent] succeeds, its result contains no
    ['/'], and [decodeURIComponent] of it is the text; for text that is not
    well-formed [encodeURIComponent] throws. *)
Theorem decodeURIComponent_encodeURIComponent s :
  match URI.encodeURIComponent s with
  | Some escaped =>
      URI.well_formed s = true /\
      JS.includes "/" escaped = false /\
      URI.decodeURIComponent escaped = Some s
  | None => URI.well_formed s = false
  end.
Proof.
  unfold URI.encodeURIComponent, URI.decodeURIComponent.
  destruct (URI.well_formed s) eqn:Hs; [|reflexivity].
  split; [reflexivity|]. split; [apply escape_all_no_slash|].
  rewrite decode_escape_all. unfold URI.well_formed in Hs. rewrite Hs. reflexivity.
Qed.

Lemma tokens_plain s :
  JS.includes "%" s = false ->
  URI.tokens s ≫= URI.decode URI.Start = Some s.
Proof.
  induction s as [|c r IH]; [reflexivity|]. cbn [JS.includes URI.tokens].
  intros [Hc Hr]%orb_false_iff. rewrite Hc. specialize (IH Hr).
  destruct (URI.tokens r) as [ts|]; simpl in *; [|discriminate].
  rewrite IH. reflexivity.
Qed.

(** Text without ['%'] is unescaped to itself. *)
Theorem decodeURIComponent_plain s :
  JS.includes "%" s = false -> URI.decodeURIComponent s = Some s.
Proof. apply tokens_plain. Qed.

Lemma decodeURIComponent_plain_witness :
  URI.decodeURIComponent "cogix-sdk/0.9.0/linux-x64/libcogix-sdk.so"
  = Some "cogix-sdk/0.9.0/linux-x64/libcogix-sdk.so".
Proof.
  apply (decodeURIComponent_plain "cogix-sdk/0.9.0/linux-x64/libcogix-sdk.so").
  reflexivity.
Defined.

(** ** [GET /download/*] *)

Lemma split_piece_no_sep sep s piece :
  piece ∈ JS.split sep s -> JS.includes sep piece = false.
Proof.
  revert piece. induction s as [|c r IH]; intros piece; simpl.
  - intros ->%list_elem_of_singleton. reflexivity.
  - destruct (Ascii.eqb c sep) eqn:Hc.
    + intros [->|Hin]%elem_of_cons; [reflexivity|apply IH, Hin].
    + destruct (split_cons sep r) as (q & qs & Hq). rewrite Hq in *.
      intros [->|Hin]%elem_of_cons.
      * simpl. rewrite Hc. apply IH, list_elem_of_here.
      * apply IH, list_elem_of_further, Hin.
Qed.

Lemma R2Bucket_get_Some key bucket object :
  R2Bucket_get key bucket = Some object ->
  object ∈ bucket /\ R2Object.key object = key.
Proof.
  intros [Hin Hk]%find_some. split; [apply list_elem_of_In, Hin|].
  apply String.eqb_eq, Hk.
Qed.




(** The file name offered for a download is never empty and never
    contains a ['/']: it is the last segment of the key, and ["download"]
    when that segment is empty. *)
Theorem download_filename path bucket object filename :
  download path bucket = Attachment object filename ->
  filename <> "" /\
  JS.includes "/" filename = false /\
  exists segment,
    last (JS.split "/" (R2Object.key object)) = Some segment /\
    filename = if decide (segment = "") then "download" else segment.
Proof.
  unfold download.
  destruct (URI.decodeURIComponent _) as [decodedKey|]; [|discriminate].
  destruct (R2Bucket_get decodedKey bucket) as [found|] eqn:Hget; [|discriminate].
  intros [= -> <-]. apply R2Bucket_get_Some in Hget as [_ <-].
  destruct (last (JS.split "/" (R2Object.key object))) as [segment|] eqn:Hlast.
  2: { apply last_None in Hlast. destruct (split_not_nil _ _ Hlast). }
  rewrite or_str_tag.
  assert (Hseg : JS.includes "/" segment = false).
  { apply (split_piece_no_sep "/" (R2Object.key object)).
    apply last_Some_elem_of, Hlast. }
  split; [|split].
  - destruct (decide (segment = "")); [discriminate|assumption].
  - destruct (decide (segment = "")); [reflexivity|exact Hseg].
  - exists segment. split; reflexivity.
Qed.

Lemma download_filename_witness :
  let bucket := [ R2Object.mk "cogix-sdk/0.9.0/linux-x64/" 3 (JS.ValidDate 1) None ] in
  download "/download/cogix-sdk%2F0.9.0%2Flinux-x64%2F" bucket
    = Attachment (R2Object.mk "cogix-sdk/0.9.0/linux-x64/" 3 (JS.ValidDate 1) None)
        "download" /\
  "download" <> "" /\ JS.includes "/" "download" = false.
Proof.
  intros bucket. split; [reflexivity|].
  destruct (download_filename "/download/cogix-sdk%2F0.9.0%2Flinux-x64%2F" bucket
              (R2Object.mk "cogix-sdk/0.9.0/linux-x64/" 3 (JS.ValidDate 1) None)
              "download" eq_refl) as (Hne & Hslash & _).
  split; assumption.
Defined.



(** ** The page: sections by product *)

Lemma group_release_lookup grouped release name :
  (forall n, JS.inherited n = true -> grouped !! n = None) ->
  match group_release grouped release with
  | Some grouped' =>
      own_name release /\
      (forall n, JS.inherited n = true -> grouped' !! n = None) /\
      grouped' !! name =
        if decide (of_product name release)
        then Some (default [] (grouped !! name) ++ [release])%list
        else grouped !! name
  | None => ~ own_name release
  end.
Proof.
  intros Hown. unfold group_release, grouped_truthy, own_name, of_product.
  set (product := ReleaseMetadata.product (ReleaseFile.metadata release)).
  destruct (grouped !! product) as [group|] eqn:Hg.
  - rewrite Hg.
    assert (Hp : JS.inherited product = false).
    { destruct (JS.inherited product) eqn:Hi; [|reflexivity].
      rewrite (Hown _ Hi) in Hg. discriminate. }
    split; [exact Hp|]. split.
    + intros n Hn. rewrite lookup_insert_ne by congruence. apply Hown, Hn.
    + destruct (decide (product = name)) as [<-|Hne].
      * rewrite lookup_insert_eq, Hg. reflexivity.
      * apply lookup_insert_ne, Hne.
  - destruct (JS.inherited product) eqn:Hi.
    + rewrite Hg. congruence.
    + rewrite lookup_insert_eq. split; [reflexivity|]. split.
      * intros n Hn. rewrite insert_insert_eq, lookup_insert_ne by congruence.
        apply Hown, Hn.
      * rewrite insert_insert_eq.
        destruct (decide (product = name)) as [<-|Hne].
        -- rewrite lookup_insert_eq, Hg. reflexivity.
        -- apply lookup_insert_ne, Hne.
Qed.

Lemma group_all_lookup grouped releases name :
  (forall n, JS.inherited n = true -> grouped !! n = None) ->
  match group_all grouped releases with
  | Some grouped' =>
      Forall own_name releases /\
      grouped' !! name =
        match grouped !! name, filter (of_product name) releases with
        | None, [] => None
        | group, entries => Some (default [] group ++ entries)%list
        end
  | None => Exists (fun release => ~ own_name release) releases
  end.
Proof.
  revert grouped. induction releases as [|release rest IH]; intros grouped Hown.
  - simpl. split; [constructor|].
    destruct (grouped !! name); [rewrite app_nil_r|]; reflexivity.
  - cbn [group_all].
    pose proof (group_release_lookup grouped release name Hown) as Hstep.
    destruct (group_release grouped release) as [grouped'|]; simpl.
    2: { apply Exists_cons_hd, Hstep. }
    destruct Hstep as (Hrelease & Hown' & Hlookup).
    specialize (IH grouped' Hown').
    destruct (group_all grouped' rest) as [grouped''|].
    2: { apply Exists_cons_tl, IH. }
    destruct IH as [Hrest IH]. split; [constructor; assumption|].
    rewrite IH, Hlookup, filter_cons.
    destruct (decide (of_product name release)) as [Hof|Hof].
    + destruct (grouped !! name) as [group|]; simpl;
        destruct (filter (of_product name) rest);
        rewrite <- ?app_assoc; reflexivity.
    + reflexivity.
Qed.

(** The page fails to show its sections exactly when a product of the
    shown releases is named like a member of [Object.prototype]; the empty
    state is shown exactly for no releases; otherwise there is one
    section for each product that occurs, and it holds the releases of
    that product, newest first, releases of one instant in the order
    given. *)
Theorem renderReleases_sections filteredReleases :
  match renderReleases filteredReleases with
  | EmptyState => filteredReleases = []
  | TypeError => Exists (fun release => ~ own_name release) filteredReleases
  | Sections grouped =>
      filteredReleases <> [] /\
      Forall own_name filteredReleases /\
      forall name,
        grouped !! name =
          match filter (of_product name) filteredReleases with
          | [] => None
          | entries => Some (JS.sort by_uploadDate entries)
          end
  end.
Proof.
  unfold renderReleases.
  destruct filteredReleases as [|release rest]; [reflexivity|].
  cbn [length Nat.eqb].
  assert (Hempty : forall n, JS.inherited n = true ->
                     (∅ : gmap string (list ReleaseFile.t)) !! n = None)
    by (intros; apply lookup_empty).
  destruct (group_all ∅ (release :: rest)) as [grouped|] eqn:Hg.
  - split; [discriminate|].
    pose proof (fun name => group_all_lookup ∅ (release :: rest) name Hempty) as Hall.
    rewrite Hg in Hall. split; [apply (Hall ""%string)|].
    intros name. destruct (Hall name) as [_ Hlookup].
    rewrite lookup_fmap, Hlookup, lookup_empty.
    destruct (filter (of_product name) (release :: rest)); reflexivity.
  - pose proof (group_all_lookup ∅ (release :: rest) ""%string Hempty) as Hall.
    rewrite Hg in Hall. exact Hall.
Qed.

Lemma parsed_stamped bucket : Forall stamped (omap parsed bucket).
Proof.
  apply Forall_forall. intros release (object & _ & Hp)%list_elem_of_omap.
  destruct (parsed_Some _ _ Hp) as (metadata & t & Hm & -> & Hu).
  rewrite (parseReleaseMetadata_valid _ _ Hu) in Hm.
  destruct (parse_stored _ _ _ _ _ Hm) as [_ Hdate].
  unfold stamped. simpl. rewrite Hu, Hdate. reflexivity.
Qed.

Lemma by_uploadDate_stamped a b :
  stamped a -> stamped b -> by_uploadDate a b = newest_first a b.
Proof.
  unfold stamped, by_uploadDate, newest_first. intros -> ->. reflexivity.
Qed.

(** The page's comparison orders stamped entries as the server's does. *)
Lemma sort_by_uploadDate_stamped l :
  Forall stamped l -> JS.sort by_uploadDate l = JS.sort newest_first l.
Proof.
  induction l as [|a l IH]; intros Hl; [reflexivity|].
  apply Forall_cons in Hl as [Ha Hl]. simpl. rewrite (IH Hl).
  assert (Hs : Forall stamped (JS.sort newest_first l))
    by (rewrite sort_Permutation; exact Hl).
  clear IH Hl. induction (JS.sort newest_first l) as [|b s IHs]; [reflexivity|].
  apply Forall_cons in Hs as [Hb Hs]. simpl.
  rewrite (by_uploadDate_stamped a b Ha Hb), (IHs Hs). reflexivity.
Qed.

Lemma sort_sorted_id l :
  Forall dated l -> StronglySorted not_older l -> JS.sort newest_first l = l.
Proof.
  intros Hl Hs. induction Hs as [|a l Hs IH Ha]; [reflexivity|].
  apply Forall_cons in Hl as [[ta Hta] Hl]. simpl. rewrite (IH Hl).
  destruct l as [|b l]; [reflexivity|]. simpl.
  apply Forall_cons in Ha as [(ta' & tb & Hta' & Htb & Hle) _].
  rewrite (newest_first_times a b ta' tb Hta' Htb).
  destruct (Z.leb_spec (tb - ta') 0); [reflexivity|lia].
Qed.

(** Shown without filters, the page has under each product the entries
    of that product in the order of [/api/releases]: its own sort of a
    section changes nothing. *)
Theorem page_sections_follow_listing bucket grouped :
  renderReleases (Listing.releases (api_releases bucket)) = Sections grouped ->
  forall name,
    grouped !! name =
      match filter (of_product name) (Listing.releases (api_releases bucket)) with
      | [] => None
      | entries => Some entries
      end.
Proof.
  intros Hrender name.
  assert (Hgroup : forall l,
            match group_all ∅ l with
            | Some g => g !! name = match filter (of_product name) l with
                                    | [] => None
                                    | entries => Some entries
                                    end
            | None => True
            end).
  { intros l.
    pose proof (group_all_lookup ∅ l name ltac:(intros; apply lookup_empty)) as H.
    destruct (group_all ∅ l); [|exact I].
    destruct H as [_ ->]. rewrite lookup_empty. reflexivity. }
  unfold renderReleases in Hrender.
  destruct (length (Listing.releases (api_releases bucket)) =? 0)%nat; [discriminate|].
  specialize (Hgroup (Listing.releases (api_releases bucket))).
  destruct (group_all ∅ (Listing.releases (api_releases bucket))) as [g|];
    [|discriminate].
  injection Hrender as <-. rewrite lookup_fmap, Hgroup.
  rewrite releases_all, (filter_sort _ _ (parsed_dated bucket)).
  set (entries := filter (of_product name) (omap parsed bucket)).
  assert (Hstamped : Forall stamped entries).
  { apply Forall_forall. intros r [_ Hr]%list_elem_of_filter.
    pose proof (parsed_stamped bucket) as H. rewrite Forall_forall in H. auto. }
  assert (Hdated : Forall dated entries).
  { apply Forall_forall. intros r [_ Hr]%list_elem_of_filter.
    pose proof (parsed_dated bucket) as H. rewrite Forall_forall in H. auto. }
  assert (Hid : JS.sort by_uploadDate (JS.sort newest_first entries)
                = JS.sort newest_first entries).
  { rewrite sort_by_uploadDate_stamped by (rewrite sort_Permutation; exact Hstamped).
    apply sort_sorted_id.
    - rewrite sort_Permutation. exact Hdated.
    - apply sort_sorted. exact Hdated. }
  destruct (JS.sort newest_first entries) as [|a l]; [reflexivity|].
  cbn [fmap option_fmap option_map]. rewrite Hid. reflexivity.
Qed.

Lemma page_sections_follow_listing_witness :
  let bucket :=
    [ R2Object.mk "a/1/linux-x64/old" 1 (JS.ValidDate 100) None;
      R2Object.mk "b/1/linux-x64/x" 1 (JS.ValidDate 150) None;
      R2Object.mk "a/2/linux-x64/new" 1 (JS.ValidDate 200) None ] in
  exists grouped entries,
    renderReleases (Listing.releases (api_releases bucket)) = Sections grouped /\
    grouped !! "a" = Some entries /\
    ReleaseFile.key <$> entries = ["a/2/linux-x64/new"; "a/1/linux-x64/old"].
Proof.
  intros bucket.
  destruct (renderReleases (Listing.releases (api_releases bucket))) as [|grouped|] eqn:Hr;
    [discriminate Hr| |discriminate Hr].
  exists grouped. eexists. split; [reflexivity|].
  rewrite (page_sections_follow_listing bucket grouped Hr "a").
  split; reflexivity.
Defined.

(** ** The per-platform tally *)

Lemma platforms_step_lookup platforms object release name :
  parsed object = Some release ->
  platforms_step platforms object !! name
  = if decide (of_platform name release)
    then tally_next name (platforms !! name)
    else platforms !! name.
Proof.
  intros Hp. destruct (parsed_Some _ _ Hp) as (metadata & t & Hm & -> & _).
  unfold platforms_step, of_platform. rewrite Hm.
  cbn [release_of ReleaseFile.metadata].
  set (platform := ReleaseMetadata.platform metadata).
  destruct (decide (platform = name)) as [<-|Hne].
  - destruct (tally_next platform (platforms !! platform)) as [tally|] eqn:Hnext.
    + apply lookup_insert_eq.
    + unfold tally_next in Hnext.
      destruct (platforms !! platform) as [[n|ones]|]; try discriminate. reflexivity.
  - destruct (tally_next platform (platforms !! platform)); [|reflexivity].
    apply lookup_insert_ne, Hne.
Qed.

Lemma platforms_fold_lookup listed platforms name :
  fold_left platforms_step listed platforms !! name
  = Nat.iter (length (filter (of_platform name) (omap parsed listed)))
      (tally_next name) (platforms !! name).
Proof.
  revert platforms.
  induction listed as [|object listed IH]; intros platforms;
    cbn [fold_left omap list_omap]; [reflexivity|].
  rewrite IH. destruct (parsed object) as [release|] eqn:Hp.
  - rewrite (platforms_step_lookup _ _ _ name Hp), filter_cons.
    destruct (decide (of_platform name release)); [|reflexivity].
    cbn [length]. rewrite Nat.iter_succ_r. reflexivity.
  - unfold parsed, platforms_step in *.
    destruct (parseReleaseMetadata object); [discriminate|reflexivity].
Qed.

Lemma tally_next_iter name n :
  Nat.iter (S n) (tally_next name) None
  = if JS.inherited name then
      if String.eqb name "__proto__" then None else Some (MemberText (S n))
    else Some (Counted (Z.of_nat (S n))).
Proof.
  induction n as [|n IH].
  - reflexivity.
  - rewrite Nat.iter_succ, IH.
    destruct (JS.inherited name) eqn:Hi.
    + destruct (String.eqb name "__proto__") eqn:Hproto; [|reflexivity].
      simpl. rewrite Hi, Hproto. reflexivity.
    + simpl. f_equal. f_equal. lia.
Qed.

(** The per-platform tally of the statistics: a platform that no listed
    entry has gets no entry; any other platform whose name is no member
    of [Object.prototype] has the number of listed entries of that
    platform; under an inherited name there is no number: nothing at all
    under ["__proto__"], and otherwise the text of the member followed by
    one ["1"] for each entry. *)
Theorem platform_tally bucket name :
  let entries := filter (of_platform name) (Listing.releases (api_releases bucket)) in
  api_stats_platforms bucket !! name
  = match entries with
    | [] => None
    | _ =>
        if JS.inherited name then
          if String.eqb name "__proto__" then None
          else Some (MemberText (length entries))
        else Some (Counted (Z.of_nat (length entries)))
    end.
Proof.
  cbv zeta. rewrite releases_all, (filter_sort _ _ (parsed_dated bucket)).
  unfold api_stats_platforms. cbn [R2Bucket.list].
  rewrite platforms_fold_lookup, lookup_empty.
  pose proof (sort_Permutation newest_first
                (filter (of_platform name) (omap parsed bucket))) as Hperm.
  apply Permutation_length in Hperm.
  destruct (JS.sort newest_first (filter (of_platform name) (omap parsed bucket)))
    as [|a l]; cbn [length] in Hperm; rewrite <- Hperm.
  - reflexivity.
  - apply tally_next_iter.
Qed.
